(** * PayhipDiscordBot: the polling and de-duplication loop of [Main.py]

    A shallow embedding of [PayhipMonitor] (its order feed client
    [fetch_orders], the notification dispatcher [send_notification], the
    fetch cycle [check_orders], the log sink [log] and [stop_bot]) together
    with the properties its specification states about them.

    Python values are typed as the source annotates them: the fields of
    [PayhipOrder] are strings and [items] is a list of string dictionaries.
    The libraries the program calls ([requests], [discord], the task
    scheduler) are not part of it; what they return or raise is an input of
    the model, and what the program hands to them is recorded in the state. *)

From stdpp Require Import gmap strings list.
From Stdlib Require Import ZArith Lia.

Local Open Scope string_scope.
Local Open Scope list_scope.

(** ** Data model *)

(** [@dataclass class PayhipOrder] *)
Record PayhipOrder := {
  id : string;
  status : string;
  total : string;
  customer_email : string;
  items : list (gmap string string)
}.

(** A [discord.Embed]: what [send_notification] builds. *)
Record EmbedField := {
  name : string;
  value : string;
  inline : bool
}.

Record Embed := {
  title : string;
  color : Z;
  description : string;
  fields : list EmbedField
}.

(** The [requests.get] call of [fetch_orders]. *)
Record Request := {
  url : string;
  headers : list (string * string);
  params : list (string * Z);
  timeout : Z
}.

(** One call of [send_notification]: its argument, the embed handed to
    [channel.send], and the text of the exception [channel.send] raised, if
    any. *)
Record NotifyCall := {
  call_order : PayhipOrder;
  call_embed : Embed;
  call_error : option string
}.

(** [PayhipMonitor], with what the program did to its collaborators:
    [http_calls] and [notify_calls] list the requests and notifications
    issued so far, oldest first; [loop_stopped] is set by
    [check_orders.stop()], [close_threads] counts the threads started on
    [bot.close], and [bot_closed] is [bot.is_closed()]. *)
Record PayhipMonitor := {
  payhip_key : string;
  discord_token : string;
  channel_id : Z;
  poll_interval : Z;
  processed_orders : gset string;
  bot_running : bool;
  gui_log : list string;
  log_content : string;
  http_calls : list Request;
  notify_calls : list NotifyCall;
  loop_stopped : bool;
  bot_closed : bool;
  close_threads : nat
}.

(** [PayhipMonitor.__init__], given the four values read from [config.ini]. *)
Definition init (key token : string) (channel interval : Z) : PayhipMonitor :=
  {| payhip_key := key; discord_token := token;
     channel_id := channel; poll_interval := interval;
     processed_orders := ∅;
     bot_running := false;
     gui_log := [];
     log_content := "";
     http_calls := []; notify_calls := [];
     loop_stopped := false; bot_closed := false; close_threads := 0 |}.

(** ** Exceptions

    A call either returns a value or raises; [Raises] carries [str(e)]. *)
Inductive outcome (A : Type) : Type :=
| Returns (a : A)
| Raises (e : string).
Arguments Returns {A} a.
Arguments Raises {A} e.

#[global] Instance outcome_ret : MRet outcome := fun A a => Returns a.
#[global] Instance outcome_bind : MBind outcome := fun A B f x =>
  match x with
  | Returns a => f a
  | Raises e => Raises e
  end.

(** ** The collaborators *)

(** A decoded order object as far as [fetch_orders] reads it: the value
    under each of the five keys, [None] for a key the object does not have. *)
Record RawOrder := {
  raw_id : option string;
  raw_status : option string;
  raw_total : option string;
  raw_customer_email : option string;
  raw_items : option (list (gmap string string))
}.

(** An element of the [data] array: a dict, or a value on which
    [order["id"]] raises ([TypeError]). *)
Inductive RawRecord :=
| OrderDict (d : RawOrder)
| NotSubscriptable (e : string).

(** The value under ["data"]: what iterating it yields, or the [TypeError]
    of a value that cannot be iterated. *)
Inductive DataValue :=
| Records (l : list RawRecord)
| NotIterable (e : string).

(** What [response.json()] returns: a dict with its ["data"] entry when it
    has one, or a value without [.get] ([AttributeError]). *)
Inductive JsonBody :=
| Dict (data : option DataValue)
| NotADict (e : string).

(** A [requests.Response]: [raise_for_status()] raises on an error status,
    [json()] raises on a body that is not JSON. *)
Record Response := {
  raise_for_status : outcome unit;
  json : outcome JsonBody
}.

Inductive Channel := TextChannel (cid : Z).

(** What the outside world answers during one firing of the timer:
    [requests.get] returns a response or raises (connection error,
    timeout); [bot.get_channel] finds the channel or returns [None];
    [channel.send] delivers the embed or raises, which may depend on how
    many notifications were attempted before. *)
Record Tick := {
  requests_get : Request -> outcome Response;
  get_channel : Z -> option Channel;
  channel_send : Channel -> nat -> Embed -> outcome unit
}.

(** ** The log sink *)

(** [deque(maxlen=50)] *)
Definition maxlen : nat := 50.

(** [deque.append]: the item goes to the right end, and a deque that is
    then longer than [maxlen] drops its leftmost item. *)
Definition deque_append (d : list string) (x : string) : list string :=
  let d' := d ++ [x] in
  if decide (maxlen < length d') then drop 1 d' else d'.

Definition newline : string := String (Ascii.ascii_of_nat 10) "".

(** ["\n".join] *)
Definition join_lines (l : list string) : string := String.concat newline l.

Definition set_gui_log (g : list string) (m : PayhipMonitor) : PayhipMonitor :=
  {| payhip_key := payhip_key m; discord_token := discord_token m;
     channel_id := channel_id m; poll_interval := poll_interval m;
     processed_orders := processed_orders m;
     bot_running := bot_running m;
     gui_log := g;
     log_content := join_lines g;
     http_calls := http_calls m; notify_calls := notify_calls m;
     loop_stopped := loop_stopped m; bot_closed := bot_closed m;
     close_threads := close_threads m |}.

(** [log]: append to the deque and rebuild [log_content]; the calls to the
    GUI only display [log_content]. *)
Definition log (message : string) (m : PayhipMonitor) : PayhipMonitor :=
  set_gui_log (deque_append (gui_log m) message) m.

(** A sequence of log events, in the order they happen. *)
Definition log_all (messages : list string) (m : PayhipMonitor) : PayhipMonitor :=
  foldl (fun m message => log message m) m messages.

(** ** The order feed client *)

Definition fetch_request (m : PayhipMonitor) : Request :=
  {| url := "https://payhip.com/api/v1/orders";
     headers := [("Authorization", "Bearer " +:+ payhip_key m)];
     params := [("limit", 5%Z)];
     timeout := 10 |}.

Definition record_request (r : Request) (m : PayhipMonitor) : PayhipMonitor :=
  {| payhip_key := payhip_key m; discord_token := discord_token m;
     channel_id := channel_id m; poll_interval := poll_interval m;
     processed_orders := processed_orders m;
     bot_running := bot_running m;
     gui_log := gui_log m;
     log_content := log_content m;
     http_calls := http_calls m ++ [r]; notify_calls := notify_calls m;
     loop_stopped := loop_stopped m; bot_closed := bot_closed m;
     close_threads := close_threads m |}.

(** [str(KeyError(k))] *)
Definition key_error (k : string) : string := "'" +:+ k +:+ "'".

(** [order[k]] on a dict *)
Definition getitem {A} (k : string) (v : option A) : outcome A :=
  match v with
  | Some a => Returns a
  | None => Raises (key_error k)
  end.

(** [PayhipOrder(id=order["id"], ..., items=order.get("items", []))] *)
Definition make_order (order : RawRecord) : outcome PayhipOrder :=
  match order with
  | NotSubscriptable e => Raises e
  | OrderDict d =>
      i ← getitem "id" (raw_id d);
      s ← getitem "status" (raw_status d);
      t ← getitem "total" (raw_total d);
      c ← getitem "customer_email" (raw_customer_email d);
      mret {| id := i; status := s; total := t; customer_email := c;
              items := default [] (raw_items d) |}
  end.

(** [response.json().get("data", [])] *)
Definition get_data (body : JsonBody) : outcome DataValue :=
  match body with
  | Dict data => Returns (default (Records []) data)
  | NotADict e => Raises e
  end.

(** [for order in ...] *)
Definition iterate (data : DataValue) : outcome (list RawRecord) :=
  match data with
  | Records l => Returns l
  | NotIterable e => Raises e
  end.

(** The body of the [try] of [fetch_orders]. *)
Definition fetch_try (w : Tick) (m : PayhipMonitor) : outcome (list PayhipOrder) :=
  response ← requests_get w (fetch_request m);
  _ ← raise_for_status response;
  body ← json response;
  data ← get_data body;
  records ← iterate data;
  mapM make_order records.

(** [fetch_orders]: [except Exception] logs and returns the empty list. *)
Definition fetch_orders (w : Tick) (m : PayhipMonitor)
  : list PayhipOrder * PayhipMonitor :=
  let m1 := record_request (fetch_request m) m in
  match fetch_try w m with
  | Returns orders => (orders, m1)
  | Raises e => ([], log ("API Error: " +:+ e) m1)
  end.

(** ** The notification dispatcher *)

(** [embed.add_field(name=..., value=..., inline=...)]; [inline] defaults to
    [True]. *)
Definition add_field (n v : string) (i : bool) (e : Embed) : Embed :=
  {| title := title e; color := color e; description := description e;
     fields := fields e ++ [{| name := n; value := v; inline := i |}] |}.

(** [item.get('product_name', 'Unknown')] behind ["- "] *)
Definition product_line (item : gmap string string) : string :=
  "- " +:+ default "Unknown" (item !! "product_name").

(** [discord.Color.green()] *)
Definition green : Z := 3066993.

Definition total_name : string := "Total: ".
Definition email_name : string := "Customer(EMAIL): ".
Definition products_name : string :=
  "Products(this is what you're customer is bought)".

(** The embed [send_notification] builds before it sends it. *)
Definition make_embed (order : PayhipOrder) : Embed :=
  let embed :=
    {| title := "Someone is buying you're digital product!!!";
       color := green;
       description := "**Order ID:** `" +:+ id order +:+ "`";
       fields := [] |} in
  let embed := add_field total_name ("$" +:+ total order) true embed in
  let embed := add_field email_name (customer_email order) true embed in
  match items order with
  | [] => embed
  | _ :: _ =>
      let products := join_lines (product_line <$> items order) in
      add_field products_name products false embed
  end.

Definition record_call (c : NotifyCall) (m : PayhipMonitor) : PayhipMonitor :=
  {| payhip_key := payhip_key m; discord_token := discord_token m;
     channel_id := channel_id m; poll_interval := poll_interval m;
     processed_orders := processed_orders m;
     bot_running := bot_running m;
     gui_log := gui_log m;
     log_content := log_content m;
     http_calls := http_calls m; notify_calls := notify_calls m ++ [c];
     loop_stopped := loop_stopped m; bot_closed := bot_closed m;
     close_threads := close_threads m |}.

(** [send_notification]: nothing catches what [channel.send] raises. *)
Definition send_notification (w : Tick) (channel : Channel)
    (order : PayhipOrder) (m : PayhipMonitor) : PayhipMonitor * outcome unit :=
  let embed := make_embed order in
  let r := channel_send w channel (length (notify_calls m)) embed in
  (record_call {| call_order := order; call_embed := embed; call_error :=
                    match r with Returns _ => None | Raises e => Some e end |} m,
   r).

(** ** The fetch cycle *)

(** [self.processed_orders.add(order.id)] *)
Definition add_processed (i : string) (m : PayhipMonitor) : PayhipMonitor :=
  {| payhip_key := payhip_key m; discord_token := discord_token m;
     channel_id := channel_id m; poll_interval := poll_interval m;
     processed_orders := {[ i ]} ∪ processed_orders m;
     bot_running := bot_running m;
     gui_log := gui_log m;
     log_content := log_content m;
     http_calls := http_calls m; notify_calls := notify_calls m;
     loop_stopped := loop_stopped m; bot_closed := bot_closed m;
     close_threads := close_threads m |}.

(** How one run of [check_orders] ends: it returns, or an exception leaves
    it; either way with the monitor as it is at that point. *)
Inductive cycle_result :=
| Completed (m : PayhipMonitor)
| Escaped (e : string) (m : PayhipMonitor).

Definition monitor_of (r : cycle_result) : PayhipMonitor :=
  match r with
  | Completed m => m
  | Escaped _ m => m
  end.

(** The filter of the loop body. *)
Definition is_new (order : PayhipOrder) (m : PayhipMonitor) : bool :=
  bool_decide (status order = "completed")
  && bool_decide (id order ∉ processed_orders m).

(** [for order in orders: ...] *)
Fixpoint for_orders (w : Tick) (channel : Channel) (orders : list PayhipOrder)
    (m : PayhipMonitor) : cycle_result :=
  match orders with
  | [] => Completed m
  | order :: rest =>
      if is_new order m then
        match send_notification w channel order m with
        | (m1, Raises e) => Escaped e m1
        | (m1, Returns _) =>
            let m2 := add_processed (id order) m1 in
            let m3 := log ("New Order: " +:+ id order) m2 in
            for_orders w channel rest m3
        end
      else for_orders w channel rest m
  end.

(** [check_orders], the body of the recurring task. *)
Definition check_orders (w : Tick) (m : PayhipMonitor) : cycle_result :=
  let '(orders, m1) := fetch_orders w m in
  match get_channel w (channel_id m1) with
  | None => Completed m1
  | Some channel => for_orders w channel orders m1
  end.

(** A run of the loop: one [Tick] per firing of the timer. What happens
    after an exception left [check_orders] is the scheduler's decision
    ([discord.ext.tasks] goes on after some exceptions and ends the task
    after the others): [resumes] says for which exceptions the loop goes on. *)
Fixpoint run (resumes : string -> bool) (ticks : list Tick) (m : PayhipMonitor)
  : PayhipMonitor :=
  match ticks with
  | [] => m
  | w :: rest =>
      match check_orders w m with
      | Completed m1 => run resumes rest m1
      | Escaped e m1 => if resumes e then run resumes rest m1 else m1
      end
  end.

(** ** Stopping *)

Definition set_bot_running (b : bool) (m : PayhipMonitor) : PayhipMonitor :=
  {| payhip_key := payhip_key m; discord_token := discord_token m;
     channel_id := channel_id m; poll_interval := poll_interval m;
     processed_orders := processed_orders m;
     bot_running := b;
     gui_log := gui_log m;
     log_content := log_content m;
     http_calls := http_calls m; notify_calls := notify_calls m;
     loop_stopped := loop_stopped m; bot_closed := bot_closed m;
     close_threads := close_threads m |}.

(** [run_bot], around the blocking call [self.bot.run]: [bot_error] is the
    text of the exception [bot.run] raised, if it raised. *)
Definition run_bot (bot_error : option string) (m : PayhipMonitor)
  : PayhipMonitor :=
  let m := set_bot_running true m in
  let m := log "Starting Discord bot..." m in
  match bot_error with
  | None => m
  | Some e =>
      let m := log ("Bot error: " +:+ e) m in
      set_bot_running false m
  end.

(** [self.check_orders.stop()] *)
Definition stop_loop (m : PayhipMonitor) : PayhipMonitor :=
  {| payhip_key := payhip_key m; discord_token := discord_token m;
     channel_id := channel_id m; poll_interval := poll_interval m;
     processed_orders := processed_orders m;
     bot_running := bot_running m;
     gui_log := gui_log m;
     log_content := log_content m;
     http_calls := http_calls m; notify_calls := notify_calls m;
     loop_stopped := true; bot_closed := bot_closed m;
     close_threads := close_threads m |}.

(** [Thread(target=self.bot.close).start()] *)
Definition start_close_thread (m : PayhipMonitor) : PayhipMonitor :=
  {| payhip_key := payhip_key m; discord_token := discord_token m;
     channel_id := channel_id m; poll_interval := poll_interval m;
     processed_orders := processed_orders m;
     bot_running := bot_running m;
     gui_log := gui_log m;
     log_content := log_content m;
     http_calls := http_calls m; notify_calls := notify_calls m;
     loop_stopped := loop_stopped m; bot_closed := bot_closed m;
     close_threads := S (close_threads m) |}.

(** [stop_bot]; [hasattr(self, 'check_orders')] holds from [__init__] on. *)
Definition stop_bot (m : PayhipMonitor) : PayhipMonitor :=
  if negb (bot_running m) then m
  else
    let m := log "Stopping bot..." m in
    let m := set_bot_running false m in
    let m := stop_loop m in
    let m := if negb (bot_closed m) then start_close_thread m else m in
    log "Bot stopped successfully" m.

(** ** Vocabulary of the properties *)

(** The value of the first field of an embed with a given name. *)
Definition field_value (n : string) (e : Embed) : option string :=
  value <$> head (filter (fun f => name f = n) (fields e)).

(** A record from which no order can be built: it is no dict, or it lacks
    one of the four keys [fetch_orders] subscripts. *)
Inductive malformed : RawRecord -> Prop :=
| malformed_not_dict e : malformed (NotSubscriptable e)
| malformed_no_id d : raw_id d = None -> malformed (OrderDict d)
| malformed_no_status d : raw_status d = None -> malformed (OrderDict d)
| malformed_no_total d : raw_total d = None -> malformed (OrderDict d)
| malformed_no_email d : raw_customer_email d = None -> malformed (OrderDict d).

(** The ways a fetch fails: the transport raises, the response has an error
    status, or the payload is not what the client expects. *)
Inductive fetch_failure (w : Tick) (m : PayhipMonitor) : Prop :=
| transport_error e :
    requests_get w (fetch_request m) = Raises e -> fetch_failure w m
| error_status r e :
    requests_get w (fetch_request m) = Returns r ->
    raise_for_status r = Raises e -> fetch_failure w m
| body_not_json r e :
    requests_get w (fetch_request m) = Returns r ->
    json r = Raises e -> fetch_failure w m
| body_not_dict r e :
    requests_get w (fetch_request m) = Returns r ->
    json r = Returns (NotADict e) -> fetch_failure w m
| data_not_iterable r e :
    requests_get w (fetch_request m) = Returns r ->
    json r = Returns (Dict (Some (NotIterable e))) -> fetch_failure w m
| record_malformed r l :
    requests_get w (fetch_request m) = Returns r ->
    json r = Returns (Dict (Some (Records l))) ->
    Exists malformed l -> fetch_failure w m.

(** The order a well-formed record stands for. *)
Definition represents (r : RawRecord) (o : PayhipOrder) : Prop :=
  exists d, r = OrderDict d
    /\ raw_id d = Some (id o)
    /\ raw_status d = Some (status o)
    /\ raw_total d = Some (total o)
    /\ raw_customer_email d = Some (customer_email o)
    /\ items o = default [] (raw_items d).

(** The calls of [send_notification] made for the order id [i], oldest
    first. *)
Definition calls_for (i : string) (m : PayhipMonitor) : list NotifyCall :=
  filter (fun c => id (call_order c) = i) (notify_calls m).

(** No notification that succeeded is followed by another one for the same
    order id. *)
Fixpoint no_retry_after_success (calls : list NotifyCall) : Prop :=
  match calls with
  | [] => True
  | c :: later =>
      (call_error c = None ->
       Forall (fun c' => id (call_order c') <> id (call_order c)) later)
      /\ no_retry_after_success later
  end.

(** The registry holds the id of every order that was notified with
    success, and the trace of calls has no retry after a success. *)
Definition consistent (m : PayhipMonitor) : Prop :=
  no_retry_after_success (notify_calls m)
  /\ forall c, c ∈ notify_calls m -> call_error c = None ->
       id (call_order c) ∈ processed_orders m.

(** What a stretch of the run added: the calls [new], all for completed
    orders, and to the registry the ids of those that succeeded. *)
Definition extends_by (m m' : PayhipMonitor) (new : list NotifyCall) : Prop :=
  notify_calls m' = notify_calls m ++ new
  /\ Forall (fun c => status (call_order c) = "completed") new
  /\ forall i, i ∈ processed_orders m' <->
       i ∈ processed_orders m
       \/ exists c, c ∈ new /\ id (call_order c) = i /\ call_error c = None.

(** The loop body on an order that passes the filter, when the message is
    delivered. *)
Definition notified (w : Tick) (channel : Channel) (order : PayhipOrder)
    (m : PayhipMonitor) : PayhipMonitor :=
  log ("New Order: " +:+ id order)
    (add_processed (id order) (fst (send_notification w channel order m))).

(** The line the cycle logs for a delivered notification. *)
Definition new_order_line (c : NotifyCall) : string :=
  "New Order: " +:+ id (call_order c).

(** The record of a call of [send_notification] that raised [e]. *)
Definition failed_call (order : PayhipOrder) (e : string) : NotifyCall :=
  {| call_order := order; call_embed := make_embed order; call_error := Some e |}.

(** ** Sample inputs *)

Definition raw (i s t c : string) (its : list (gmap string string)) : RawOrder :=
  {| raw_id := Some i; raw_status := Some s; raw_total := Some t;
     raw_customer_email := Some c; raw_items := Some its |}.

Definition widget : gmap string string := {[ "product_name" := "Widget" ]}.

Definition raw_A : RawOrder := raw "A" "completed" "9.99" "x@y.com" [widget].
Definition raw_B : RawOrder := raw "B" "pending" "5.00" "b@y.com" [].

Definition order_A : PayhipOrder :=
  {| id := "A"; status := "completed"; total := "9.99";
     customer_email := "x@y.com"; items := [widget] |}.

(** A response with status 200 whose body is [{"data": records}]. *)
Definition page (records : list RawRecord) : Response :=
  {| raise_for_status := Returns tt;
     json := Returns (Dict (Some (Records records))) |}.

(** A firing in which the API answers [response], the channel exists and
    [channel.send] behaves as [send] says. *)
Definition tick (response : outcome Response) (send : outcome unit) : Tick :=
  {| requests_get := fun _ => response;
     get_channel := fun c => Some (TextChannel c);
     channel_send := fun _ _ _ => send |}.

(** The same firing with the channel missing from the client's cache. *)
Definition tick_no_channel (response : outcome Response) : Tick :=
  {| requests_get := fun _ => response;
     get_channel := fun _ => None;
     channel_send := fun _ _ _ => Returns tt |}.

Definition monitor0 : PayhipMonitor := init "key" "token" 42 60.

(** Fifty-one distinct log lines. *)
Definition lines51 : list string :=
  (fun n => "event " +:+ String (Ascii.ascii_of_nat (40 + n)) "") <$> seq 0 51.

Definition raw_no_status : RawOrder :=
  {| raw_id := Some "C"; raw_status := None; raw_total := Some "1.00";
     raw_customer_email := Some "c@y.com"; raw_items := None |}.

Definition six_records : list RawRecord :=
  (fun i => OrderDict (raw i "completed" "1.00" "x@y.com" []))
    <$> ["1"; "2"; "3"; "4"; "5"; "6"].

Definition order_B : PayhipOrder :=
  {| id := "B"; status := "pending"; total := "5.00";
     customer_email := "b@y.com"; items := [] |}.

(** The feed returns order A and the message is delivered. *)
Definition tick_A : Tick := tick (Returns (page [OrderDict raw_A])) (Returns tt).

(** The feed returns order A and [channel.send] raises. *)
Definition tick_A_fails : Tick :=
  tick (Returns (page [OrderDict raw_A])) (Raises "send failed").

Definition always : string -> bool := fun _ => true.

(** A monitor that was started and then stopped. *)
Definition stopped_monitor : PayhipMonitor := stop_bot (run_bot None monitor0).

Definition call_A : NotifyCall :=
  {| call_order := order_A; call_embed := make_embed order_A; call_error := None |}.

(** ** Sessions *)

(** [run_bot] in its two halves, since [self.bot.run] blocks while the bot
    lives and cycles and [stop_bot] happen in between: what it does before
    the call, and what it does when the call is over, [bot_error] being the
    text of the exception it raised, if it raised. *)
Definition run_bot_enter (m : PayhipMonitor) : PayhipMonitor :=
  let m := set_bot_running true m in
  log "Starting Discord bot..." m.

Definition run_bot_leave (bot_error : option string) (m : PayhipMonitor)
  : PayhipMonitor :=
  match bot_error with
  | None => m
  | Some e =>
      let m := log ("Bot error: " +:+ e) m in
      set_bot_running false m
  end.

(** The steps of one monitor taken one after another, in any order: a
    firing of the timer runs [check_orders], the two buttons of the window
    run [run_bot] and [stop_bot]. *)
Inductive Call :=
| CheckOrders (w : Tick)
| RunBotEnter
| RunBotLeave (bot_error : option string)
| StopBot.

Definition perform (c : Call) (m : PayhipMonitor) : PayhipMonitor :=
  match c with
  | CheckOrders w => monitor_of (check_orders w m)
  | RunBotEnter => run_bot_enter m
  | RunBotLeave bot_error => run_bot_leave bot_error m
  | StopBot => stop_bot m
  end.

Definition session (calls : list Call) (m : PayhipMonitor) : PayhipMonitor :=
  foldl (fun m c => perform c m) m calls.

(** The number of fetch cycles of a session. *)
Fixpoint cycles (calls : list Call) : nat :=
  match calls with
  | [] => 0
  | CheckOrders _ :: rest => S (cycles rest)
  | _ :: rest => cycles rest
  end.

(** The request every cycle of a monitor with the key [key] sends. *)
Definition orders_request (key : string) : Request :=
  {| url := "https://payhip.com/api/v1/orders";
     headers := [("Authorization", "Bearer " +:+ key)];
     params := [("limit", 5%Z)];
     timeout := 10 |}.

(** The notifications that were delivered, oldest first, and the ids of
    their orders. *)
Definition delivered (m : PayhipMonitor) : list NotifyCall :=
  filter (fun c => call_error c = None) (notify_calls m).

Definition delivered_ids (m : PayhipMonitor) : list string :=
  (fun c => id (call_order c)) <$> delivered m.

(** The first of the four subscripted keys that a dict lacks. *)
Definition first_missing (d : RawOrder) : option string :=
  match raw_id d, raw_status d, raw_total d, raw_customer_email d with
  | None, _, _, _ => Some "id"
  | Some _, None, _, _ => Some "status"
  | Some _, Some _, None, _ => Some "total"
  | Some _, Some _, Some _, None => Some "customer_email"
  | Some _, Some _, Some _, Some _ => None
  end.

(** The log sink holds at most [maxlen] lines and [log_content] is their
    text. *)
Definition log_ok (m : PayhipMonitor) : Prop :=
  length (gui_log m) <= maxlen /\ log_content m = join_lines (gui_log m).

Definition raw_no_items : RawOrder :=
  {| raw_id := Some "D"; raw_status := Some "completed"; raw_total := Some "2.00";
     raw_customer_email := Some "d@y.com"; raw_items := None |}.

Definition raw_no_status_no_total : RawOrder :=
  {| raw_id := Some "E"; raw_status := None; raw_total := None;
     raw_customer_email := Some "e@y.com"; raw_items := None |}.

(** The feed returns A (completed) and B (pending); messages are delivered. *)
Definition tick_AB : Tick :=
  tick (Returns (page [OrderDict raw_A; OrderDict raw_B])) (Returns tt).

(** The feed returns order B only. *)
Definition tick_B : Tick := tick (Returns (page [OrderDict raw_B])) (Returns tt).

(** The lines of a text: its pieces between the characters of code 10. *)
Fixpoint lines_of (s : string) : list string :=
  match s with
  | EmptyString => [EmptyString]
  | String c s' =>
      if Ascii.eqb c (Ascii.ascii_of_nat 10) then EmptyString :: lines_of s'
      else match lines_of s' with
           | [] => [String c EmptyString]
           | l :: ls => String c l :: ls
           end
  end.

Fixpoint has_newline (s : string) : bool :=
  match s with
  | EmptyString => false
  | String c s' => Ascii.eqb c (Ascii.ascii_of_nat 10) || has_newline s'
  end.

(** Order A while it is still pending. *)
Definition raw_A_pending : RawOrder := raw "A" "pending" "9.99" "x@y.com" [widget].

Definition order_A_pending : PayhipOrder :=
  {| id := "A"; status := "pending"; total := "9.99";
     customer_email := "x@y.com"; items := [widget] |}.

(** The feed returns a pending and a completed record with the id A. *)
Definition tick_A_twice : Tick :=
  tick (Returns (page [OrderDict raw_A_pending; OrderDict raw_A])) (Returns tt).

Definition gadget : gmap string string := {[ "product_name" := "Gadget" ]}.

Definition order_two_items : PayhipOrder :=
  {| id := "F"; status := "completed"; total := "3.50";
     customer_email := "f@y.com"; items := [widget; ∅; gadget] |}.

(** * Properties *)

(** ** The log sink is a ring buffer *)

Lemma deque_append_length d x :
  length d <= maxlen -> length (deque_append d x) <= maxlen.
Proof.
  intros Hd. unfold deque_append. cbn zeta.
  case_decide as Hlen; rewrite ?length_drop, length_app in *; simpl in *; lia.
Qed.

Lemma deque_append_drop d x :
  length d <= maxlen ->
  deque_append d x = drop (length (d ++ [x]) - maxlen) (d ++ [x]).
Proof.
  intros Hd. unfold deque_append. cbn zeta.
  case_decide as Hlen; rewrite length_app in *; simpl in *.
  - replace (length d + 1 - maxlen) with 1 by lia. reflexivity.
  - replace (length d + 1 - maxlen) with 0 by lia. reflexivity.
Qed.

Lemma last_deque_append d x : last (deque_append d x) = Some x.
Proof.
  unfold deque_append. cbn zeta. case_decide as Hlen.
  - destruct d as [|y d]; [simpl in Hlen; unfold maxlen in Hlen; lia|].
    simpl. rewrite drop_0. apply last_snoc.
  - apply last_snoc.
Qed.



Lemma gui_log_log message m :
  gui_log (log message m) = deque_append (gui_log m) message.
Proof. reflexivity. Qed.

Lemma log_content_log message m :
  log_content (log message m) = join_lines (gui_log (log message m)).
Proof. reflexivity. Qed.

(** After any sequence of events the deque holds the tail of everything
    that was ever in it. *)
Lemma gui_log_log_all messages : forall m,
  length (gui_log m) <= maxlen ->
  gui_log (log_all messages m)
  = drop (length (gui_log m ++ messages) - maxlen) (gui_log m ++ messages).
Proof.
  induction messages as [|x messages IH]; intros m Hm.
  - simpl. rewrite app_nil_r.
    replace (length (gui_log m) - maxlen) with 0 by lia. reflexivity.
  - change (log_all (x :: messages) m) with (log_all messages (log x m)).
    rewrite IH by (rewrite gui_log_log; apply deque_append_length, Hm).
    rewrite gui_log_log, (deque_append_drop _ _ Hm).
    set (k := length (gui_log m ++ [x]) - maxlen).
    assert (Hk : k <= length (gui_log m ++ [x])) by (unfold k; lia).
    rewrite <- (drop_app_le _ _ _ Hk), drop_drop.
    rewrite length_drop, <- (assoc_L (++)). simpl.
    f_equal. unfold k. rewrite !length_app in *. simpl in *. lia.
Qed.

(** C7. Bounded log: after more than 50 log events the log sink holds
    exactly the last 50 of them, oldest first and newest last (and
    [log_content] is those 50 lines joined). The deque never holds more
    than 50 entries, which is the hypothesis on the starting monitor. *)
Theorem log_keeps_last_50 (messages : list string) (m : PayhipMonitor) :
  length (gui_log m) <= 50 ->
  50 < length messages ->
  gui_log (log_all messages m) = drop (length messages - 50) messages
  /\ length (gui_log (log_all messages m)) = 50
  /\ log_content (log_all messages m)
     = join_lines (drop (length messages - 50) messages).
Proof.
  intros Hm Hlen.
  assert (Hg : gui_log (log_all messages m)
               = drop (length messages - 50) messages).
  { rewrite gui_log_log_all by exact Hm.
    rewrite length_app. change maxlen with 50.
    replace (length (gui_log m) + length messages - 50)
      with (length (gui_log m) + (length messages - 50)) by lia.
    apply drop_app_add. }
  split; [exact Hg|]. split.
  - rewrite Hg, length_drop. lia.
  - destruct messages as [|x messages _] using rev_ind; [simpl in Hlen; lia|].
    unfold log_all in *. rewrite foldl_snoc in *.
    rewrite log_content_log. f_equal. exact Hg.
Qed.

Lemma log_keeps_last_50_witness :
  gui_log (log_all lines51 monitor0) = drop (length lines51 - 50) lines51
  /\ length (gui_log (log_all lines51 monitor0)) = 50
  /\ log_content (log_all lines51 monitor0)
     = join_lines (drop (length lines51 - 50) lines51).
Proof.
  apply (log_keeps_last_50 lines51 monitor0); vm_compute; lia.
Defined.

(** ** Stopping a stopped bot *)

(** C8. [stop_bot] on a monitor whose [bot_running] flag is off returns at
    once: the whole monitor (the flag, the registry of seen orders, the log
    sink and its text, the task and the connection with the requests made
    on them) is what it was. *)
Theorem stop_bot_stopped (m : PayhipMonitor) :
  bot_running m = false ->
  stop_bot m = m.
Proof. intros Hstopped. unfold stop_bot. rewrite Hstopped. reflexivity. Qed.

Lemma stop_bot_stopped_witness : stop_bot stopped_monitor = stopped_monitor.
Proof. apply (stop_bot_stopped stopped_monitor). reflexivity. Defined.

(** X19. Stopping twice is stopping once: a second [stop_bot] right after a
    first one changes nothing, whether the bot was running or not. *)
Lemma stop_bot_twice (m : PayhipMonitor) : stop_bot (stop_bot m) = stop_bot m.
Proof.
  destruct (bot_running m) eqn:Hrun.
  - unfold stop_bot at 1.
    replace (bot_running (stop_bot m)) with false; [reflexivity|].
    unfold stop_bot. rewrite Hrun. simpl.
    destruct (bot_closed m); reflexivity.
  - unfold stop_bot. rewrite Hrun. simpl. rewrite Hrun. reflexivity.
Qed.

Example stop_bot_log :
  gui_log stopped_monitor
  = ["Starting Discord bot..."; "Stopping bot..."; "Bot stopped successfully"]
  /\ bot_running stopped_monitor = false
  /\ loop_stopped stopped_monitor = true
  /\ close_threads stopped_monitor = 1.
Proof. repeat split; reflexivity. Qed.

(** On a running bot it does all of its work. *)
Lemma stop_bot_running (m : PayhipMonitor) :
  bot_running m = true ->
  bot_running (stop_bot m) = false
  /\ loop_stopped (stop_bot m) = true
  /\ processed_orders (stop_bot m) = processed_orders m
  /\ close_threads (stop_bot m)
     = if bot_closed m then close_threads m else S (close_threads m).
Proof.
  intros Hrun. unfold stop_bot. rewrite Hrun. simpl.
  destruct (bot_closed m); simpl; auto.
Qed.

(** ** The notification message *)

Lemma product_line_named (item : gmap string string) (p : string) :
  item !! "product_name" = Some p -> product_line item = "- " +:+ p.
Proof. intros H. unfold product_line. rewrite H. reflexivity. Qed.

Lemma product_line_unnamed (item : gmap string string) :
  item !! "product_name" = None -> product_line item = "- Unknown".
Proof. intros H. unfold product_line. rewrite H. reflexivity. Qed.

Lemma lines_of_no_newline s : has_newline s = false -> lines_of s = [s].
Proof.
  induction s as [|c s IH]; [reflexivity|]. simpl.
  intros H. apply orb_false_iff in H as [Hc Hs].
  rewrite Hc, (IH Hs). reflexivity.
Qed.

Lemma lines_of_app_newline s t :
  has_newline s = false ->
  lines_of (s +:+ String (Ascii.ascii_of_nat 10) t) = s :: lines_of t.
Proof.
  induction s as [|c s IH]; [reflexivity|]. simpl.
  intros H. apply orb_false_iff in H as [Hc Hs].
  rewrite Hc, (IH Hs). reflexivity.
Qed.

(** Entries without a newline of their own, joined by newlines, are the
    lines of the text. *)
Lemma lines_of_concat (l : list string) :
  l <> [] ->
  Forall (fun s => has_newline s = false) l ->
  lines_of (String.concat (String (Ascii.ascii_of_nat 10) EmptyString) l) = l.
Proof.
  intros Hl Hall. induction Hall as [|x l Hx Hall IH]; [congruence|].
  destruct l as [|y l].
  - simpl. apply lines_of_no_newline, Hx.
  - change (String.concat (String (Ascii.ascii_of_nat 10) EmptyString) (x :: y :: l))
      with (x +:+ String (Ascii.ascii_of_nat 10)
                    (String.concat (String (Ascii.ascii_of_nat 10) EmptyString)
                       (y :: l))).
    rewrite (lines_of_app_newline _ _ Hx), IH by discriminate. reflexivity.
Qed.

(** C6. The message [send_notification] hands to [channel.send] for an
    order has a title, a total field that is the character [$] followed by
    the order's total, a customer e-mail field, and a products field if and
    only if the order has items; that field is the entries of the items, in
    their order, joined by the newline character (code 10), the entry of an
    item being its product name behind a dash, with [Unknown] for an item
    that has none. So the lines of the field are these entries, one per
    item, provided no product name holds a newline itself. *)
Theorem notification_message (w : Tick) (channel : Channel)
    (order : PayhipOrder) (m : PayhipMonitor) :
  let sent := make_embed order in
  let entries :=
    (fun item => "- " +:+ default "Unknown" (item !! "product_name"))
      <$> items order in
  notify_calls (fst (send_notification w channel order m))
    = notify_calls m
      ++ [{| call_order := order; call_embed := sent;
             call_error := match snd (send_notification w channel order m) with
                           | Returns _ => None
                           | Raises e => Some e
                           end |}]
  /\ title sent = "Someone is buying you're digital product!!!"
  /\ field_value total_name sent = Some ("$" +:+ total order)
  /\ field_value email_name sent = Some (customer_email order)
  /\ (items order <> [] <-> is_Some (field_value products_name sent))
  /\ (items order <> [] ->
      field_value products_name sent
      = Some (String.concat (String (Ascii.ascii_of_nat 10) EmptyString) entries))
  /\ (items order <> [] ->
      Forall (fun item =>
                has_newline (default "Unknown" (item !! "product_name")) = false)
        (items order) ->
      lines_of <$> field_value products_name sent = Some entries
      /\ length entries = length (items order))
  /\ length (fields sent) = (if items order is [] then 2 else 3).
Proof.
  cbn zeta. split; [reflexivity|].
  unfold make_embed. destruct (items order) as [|item rest] eqn:Hitems.
  - repeat split; try reflexivity; try congruence.
    intros [v Hv]. vm_compute in Hv. discriminate.
  - split; [reflexivity|]. split; [reflexivity|]. split; [reflexivity|].
    split; [split; [intros _; eexists; reflexivity|intros _; discriminate]|].
    split; [intros _; reflexivity|]. split; [|reflexivity].
    intros _ Hnames. split; [|apply length_fmap].
    change (field_value products_name _)
      with (Some (join_lines (product_line <$> item :: rest))).
    simpl fmap at 1. f_equal.
    apply lines_of_concat; [discriminate|].
    apply Forall_fmap. eapply Forall_impl; [exact Hnames|].
    intros it Hit. exact Hit.
Qed.

(** An order with three items, the second without a product name. *)
Example notification_three_items :
  field_value products_name (make_embed order_two_items)
  = Some "- Widget
- Unknown
- Gadget"
  /\ lines_of <$> field_value products_name (make_embed order_two_items)
     = Some ["- Widget"; "- Unknown"; "- Gadget"].
Proof. split; reflexivity. Qed.

(** ** The order feed client *)

Lemma make_order_malformed r : malformed r -> exists e, make_order r = Raises e.
Proof.
  intros [e|d H|d H|d H|d H]; simpl; [eauto|..];
    destruct (raw_id d), (raw_status d), (raw_total d), (raw_customer_email d);
    simpl; eauto; discriminate.
Qed.

Lemma make_order_well_formed r :
  ~ malformed r -> exists o, make_order r = Returns o /\ represents r o.
Proof.
  intros Hr. destruct r as [d|e]; [|destruct Hr; constructor].
  destruct (raw_id d) as [i|] eqn:Hi; [|destruct Hr; constructor; assumption].
  destruct (raw_status d) as [s|] eqn:Hs; [|destruct Hr; constructor 3; assumption].
  destruct (raw_total d) as [t|] eqn:Ht; [|destruct Hr; constructor 4; assumption].
  destruct (raw_customer_email d) as [c|] eqn:Hc;
    [|destruct Hr; constructor 5; assumption].
  eexists. split.
  - simpl. rewrite Hi, Hs, Ht, Hc. reflexivity.
  - exists d. simpl. auto 10.
Qed.

Lemma mapM_make_order_malformed l :
  Exists malformed l -> exists e, mapM make_order l = Raises e.
Proof.
  induction 1 as [r l Hr|r l _ [e IH]].
  - destruct (make_order_malformed r Hr) as [e He]. exists e.
    simpl. rewrite He. reflexivity.
  - simpl. destruct (make_order r) as [o|e']; simpl; [|eauto].
    rewrite IH. simpl. eauto.
Qed.

Lemma mapM_make_order_well_formed l :
  Forall (fun r => ~ malformed r) l ->
  exists orders, mapM make_order l = Returns orders /\ Forall2 represents l orders.
Proof.
  induction 1 as [|r l Hr _ [orders [IH1 IH2]]].
  - exists []. split; [reflexivity|constructor].
  - destruct (make_order_well_formed r Hr) as [o [Ho Hro]].
    exists (o :: orders). split; [|constructor; assumption].
    simpl. rewrite Ho. simpl. rewrite IH1. reflexivity.
Qed.

Lemma fetch_try_failure w m : fetch_failure w m -> exists e, fetch_try w m = Raises e.
Proof.
  unfold fetch_try.
  intros [e H|r e H1 H2|r e H1 H2|r e H1 H2|r e H1 H2|r l H1 H2 H3];
    rewrite ?H1, ?H; simpl; [eauto|..];
    destruct (raise_for_status r) as [[]|e0]; simpl; eauto;
    try discriminate; rewrite H2; simpl; eauto.
  apply mapM_make_order_malformed, H3.
Qed.

(** What [fetch_orders] leaves alone. *)
Lemma fetch_orders_frame w m :
  let m1 := snd (fetch_orders w m) in
  processed_orders m1 = processed_orders m
  /\ notify_calls m1 = notify_calls m
  /\ channel_id m1 = channel_id m
  /\ http_calls m1 = http_calls m ++ [fetch_request m].
Proof.
  unfold fetch_orders. destruct (fetch_try w m); simpl; auto.
Qed.

Lemma check_orders_no_orders w m m1 :
  fetch_orders w m = ([], m1) -> check_orders w m = Completed m1.
Proof.
  intros H. unfold check_orders. rewrite H.
  destruct (get_channel w (channel_id m1)); reflexivity.
Qed.

(** The [except] branch: the empty list and one log line. *)
Lemma fetch_failure_logged w m :
  fetch_failure w m ->
  exists cause,
    fetch_orders w m
    = ([], log ("API Error: " +:+ cause) (record_request (fetch_request m) m)).
Proof.
  intros Hfail. destruct (fetch_try_failure w m Hfail) as [cause Hcause].
  exists cause. unfold fetch_orders. rewrite Hcause. reflexivity.
Qed.



(** C5, as the code has it. When the fetch succeeds, [fetch_orders] returns
    one order per record of the response's [data] array, in the order of
    the response, so that the result is exactly as long as that array: the
    client asks for five orders with [limit=5] and does not cut a longer
    answer. The request carries [limit=5] and a timeout of 10 seconds. *)
Theorem fetch_orders_as_given (w : Tick) (m : PayhipMonitor)
    (r : Response) (data : option DataValue) (l : list RawRecord) :
  requests_get w (fetch_request m) = Returns r ->
  raise_for_status r = Returns tt ->
  json r = Returns (Dict data) ->
  default (Records []) data = Records l ->
  Forall (fun x => ~ malformed x) l ->
  exists orders,
    fetch_orders w m = (orders, record_request (fetch_request m) m)
    /\ Forall2 represents l orders
    /\ length orders = length l
    /\ (length l <= 5 -> length orders <= 5)
    /\ http_calls (snd (fetch_orders w m)) = http_calls m ++ [fetch_request m]
    /\ params (fetch_request m) = [("limit", 5%Z)]
    /\ timeout (fetch_request m) = 10%Z.
Proof.
  intros Hget Hstatus Hjson Hdata Hl.
  destruct (mapM_make_order_well_formed l Hl) as [orders [Hmap Hrep]].
  exists orders.
  assert (Hfetch : fetch_orders w m = (orders, record_request (fetch_request m) m)).
  { unfold fetch_orders, fetch_try. rewrite Hget. simpl. rewrite Hstatus. simpl.
    rewrite Hjson. simpl. rewrite Hdata. simpl. rewrite Hmap. reflexivity. }
  pose proof (Forall2_length _ _ _ Hrep) as Hlen.
  rewrite Hfetch. repeat split; auto. lia.
Qed.

Lemma fetch_orders_as_given_witness :
  let w := tick (Returns (page six_records)) (Returns tt) in
  exists orders,
    fetch_orders w monitor0 = (orders, record_request (fetch_request monitor0) monitor0)
    /\ Forall2 represents six_records orders
    /\ length orders = length six_records
    /\ (length six_records <= 5 -> length orders <= 5)
    /\ http_calls (snd (fetch_orders w monitor0))
       = http_calls monitor0 ++ [fetch_request monitor0]
    /\ params (fetch_request monitor0) = [("limit", 5%Z)]
    /\ timeout (fetch_request monitor0) = 10%Z.
Proof.
  apply (fetch_orders_as_given (tick (Returns (page six_records)) (Returns tt))
           monitor0 (page six_records) (Some (Records six_records)) six_records);
    try reflexivity.
  repeat constructor; intros H; inversion H; discriminate.
Defined.

(** C5 as stated fails: a response with six well-formed records is a
    success, and all six orders are returned. *)
Lemma fetch_orders_exceeds_limit :
  let w := tick (Returns (page six_records)) (Returns tt) in
  snd (fetch_orders w monitor0) = record_request (fetch_request monitor0) monitor0
  /\ id <$> fst (fetch_orders w monitor0) = ["1"; "2"; "3"; "4"; "5"; "6"]
  /\ ~ length (fst (fetch_orders w monitor0)) <= 5.
Proof.
  cbn zeta. split; [reflexivity|]. split; [reflexivity|].
  vm_compute. lia.
Qed.

(** C10. One malformed record in the [data] array of a response (a record
    that lacks [id], [status], [total] or [customer_email], say) makes
    [fetch_orders] return the empty list, whatever well-formed records the
    array holds besides: the cycle notifies nothing and marks nothing. The
    returned value is the one of a failed request and of an empty page. *)
Theorem malformed_record_drops_page (w : Tick) (m : PayhipMonitor)
    (r : Response) (l : list RawRecord) :
  requests_get w (fetch_request m) = Returns r ->
  json r = Returns (Dict (Some (Records l))) ->
  Exists malformed l ->
  fst (fetch_orders w m) = []
  /\ notify_calls (monitor_of (check_orders w m)) = notify_calls m
  /\ processed_orders (monitor_of (check_orders w m)) = processed_orders m
  /\ (forall w1 e, requests_get w1 (fetch_request m) = Raises e ->
        fst (fetch_orders w1 m) = fst (fetch_orders w m))
  /\ (forall w2, requests_get w2 (fetch_request m) = Returns (page []) ->
        fst (fetch_orders w2 m) = fst (fetch_orders w m)).
Proof.
  intros Hget Hjson Hbad.
  destruct (fetch_failure_logged w m (record_malformed w m r l Hget Hjson Hbad))
    as [cause Hfetch].
  rewrite (check_orders_no_orders w m _ Hfetch), Hfetch. simpl.
  repeat split.
  - intros w1 e H1. unfold fetch_orders, fetch_try. rewrite H1. reflexivity.
  - intros w2 H2. unfold fetch_orders, fetch_try. rewrite H2. reflexivity.
Qed.

Lemma malformed_record_drops_page_witness :
  let w := tick (Returns (page [OrderDict raw_A; OrderDict raw_no_status]))
                (Returns tt) in
  fst (fetch_orders w monitor0) = []
  /\ notify_calls (monitor_of (check_orders w monitor0)) = notify_calls monitor0
  /\ processed_orders (monitor_of (check_orders w monitor0))
     = processed_orders monitor0
  /\ (forall w1 e, requests_get w1 (fetch_request monitor0) = Raises e ->
        fst (fetch_orders w1 monitor0) = fst (fetch_orders w monitor0))
  /\ (forall w2, requests_get w2 (fetch_request monitor0) = Returns (page []) ->
        fst (fetch_orders w2 monitor0) = fst (fetch_orders w monitor0)).
Proof.
  apply (malformed_record_drops_page
           (tick (Returns (page [OrderDict raw_A; OrderDict raw_no_status]))
                 (Returns tt)) monitor0
           (page [OrderDict raw_A; OrderDict raw_no_status])
           [OrderDict raw_A; OrderDict raw_no_status]); try reflexivity.
  apply Exists_cons_tl, Exists_cons_hd, malformed_no_status. reflexivity.
Defined.

(** ** The fetch cycle *)

Lemma extends_by_refl m : extends_by m m [].
Proof.
  repeat split; rewrite ?app_nil_r; auto.
  intros [H|(c & Hc & _)]; [assumption|]. inversion Hc.
Qed.

Lemma extends_by_trans m1 m2 m3 new1 new2 :
  extends_by m1 m2 new1 -> extends_by m2 m3 new2 ->
  extends_by m1 m3 (new1 ++ new2).
Proof.
  intros (Hc1 & Hs1 & Hr1) (Hc2 & Hs2 & Hr2). repeat split.
  - rewrite Hc2, Hc1, (assoc_L (++)). reflexivity.
  - apply Forall_app; auto.
  - rewrite Hr2, Hr1. intros [[H|(c & Hc & H)]|(c & Hc & H)]; auto.
    + right. exists c. rewrite elem_of_app. auto.
    + right. exists c. rewrite elem_of_app. auto.
  - rewrite Hr2, Hr1. intros [H|(c & Hc & H)]; auto.
    apply elem_of_app in Hc as [Hc|Hc]; eauto.
Qed.

Lemma is_new_true order m :
  is_new order m = true <->
  status order = "completed" /\ id order ∉ processed_orders m.
Proof.
  unfold is_new. rewrite andb_true_iff, !bool_decide_eq_true. reflexivity.
Qed.

Lemma is_new_false order m :
  is_new order m = false <->
  status order <> "completed" \/ id order ∈ processed_orders m.
Proof.
  unfold is_new. rewrite andb_false_iff, !bool_decide_eq_false.
  split; (intros [H|H]; [left; assumption|right]).
  - destruct (decide (id order ∈ processed_orders m)); tauto.
  - tauto.
Qed.

Lemma for_orders_skip w channel order rest m :
  is_new order m = false ->
  for_orders w channel (order :: rest) m = for_orders w channel rest m.
Proof. intros H. simpl. rewrite H. reflexivity. Qed.

Lemma for_orders_delivered w channel order rest m :
  is_new order m = true ->
  channel_send w channel (length (notify_calls m)) (make_embed order) = Returns tt ->
  for_orders w channel (order :: rest) m
  = for_orders w channel rest (notified w channel order m).
Proof.
  intros Hnew Hsend. simpl. rewrite Hnew.
  unfold notified, send_notification. rewrite Hsend. reflexivity.
Qed.

Lemma for_orders_failed w channel order rest m e :
  is_new order m = true ->
  channel_send w channel (length (notify_calls m)) (make_embed order) = Raises e ->
  for_orders w channel (order :: rest) m
  = Escaped e (fst (send_notification w channel order m)).
Proof.
  intros Hnew Hsend. simpl. rewrite Hnew.
  unfold send_notification. rewrite Hsend. reflexivity.
Qed.

Lemma for_orders_extends w channel orders : forall m,
  exists new, extends_by m (monitor_of (for_orders w channel orders m)) new
    /\ Forall (fun c => call_order c ∈ orders) new.
Proof.
  induction orders as [|order rest IH]; intros m.
  - exists []. split; [apply extends_by_refl|constructor].
  - destruct (is_new order m) eqn:Hnew.
    + apply is_new_true in Hnew as Hnew'. destruct Hnew' as [Hstatus Hfresh].
      destruct (channel_send w channel (length (notify_calls m)) (make_embed order))
        as [[]|e] eqn:Hsend.
      * rewrite (for_orders_delivered _ _ _ _ _ Hnew Hsend).
        destruct (IH (notified w channel order m)) as (new & Hext & Hin).
        eexists (_ :: new). split.
        -- apply (extends_by_trans m (notified w channel order m) _ [_] new);
             [|exact Hext].
           unfold notified, send_notification. rewrite Hsend.
           repeat split; simpl.
           ++ constructor; [exact Hstatus|constructor].
           ++ intros Hi. apply elem_of_union in Hi as [Hi|Hi]; [|auto].
              apply elem_of_singleton in Hi. subst i. right.
              eexists. split; [apply list_elem_of_here|]. auto.
           ++ intros [Hi|(c & Hc & Hid & _)]; [set_solver|].
              apply list_elem_of_singleton in Hc. subst c. simpl in Hid.
              set_solver.
        -- constructor; [simpl; apply list_elem_of_here|].
           eapply Forall_impl; [exact Hin|]. intros c Hc.
           simpl. apply list_elem_of_further, Hc.
      * rewrite (for_orders_failed _ _ _ _ _ _ Hnew Hsend).
        eexists [_]. split.
        -- unfold send_notification. rewrite Hsend.
           repeat split; simpl; auto.
           intros [Hi|(c & Hc & _ & Herr)]; [assumption|].
           apply list_elem_of_singleton in Hc. subst c. discriminate.
        -- constructor; [simpl; apply list_elem_of_here|constructor].
    + rewrite (for_orders_skip _ _ _ _ _ Hnew).
      destruct (IH m) as (new & Hext & Hin). exists new. split; [exact Hext|].
      eapply Forall_impl; [exact Hin|]. intros c Hc.
      simpl. apply list_elem_of_further, Hc.
Qed.

Lemma fetch_orders_extends w m : extends_by m (snd (fetch_orders w m)) [].
Proof.
  destruct (fetch_orders_frame w m) as (Hreg & Hcalls & _).
  repeat split; rewrite ?app_nil_r, ?Hreg; auto.
  intros [H|(c & Hc & _)]; [assumption|]. inversion Hc.
Qed.

Lemma check_orders_for_orders w m :
  check_orders w m
  = match get_channel w (channel_id m) with
    | None => Completed (snd (fetch_orders w m))
    | Some channel =>
        for_orders w channel (fst (fetch_orders w m)) (snd (fetch_orders w m))
    end.
Proof.
  unfold check_orders.
  destruct (fetch_orders_frame w m) as (_ & _ & Hchannel & _).
  destruct (fetch_orders w m) as [orders m1]. simpl in *.
  rewrite Hchannel. reflexivity.
Qed.

Lemma check_orders_extends w m :
  exists new, extends_by m (monitor_of (check_orders w m)) new
    /\ Forall (fun c => call_order c ∈ fst (fetch_orders w m)) new.
Proof.
  rewrite check_orders_for_orders.
  destruct (get_channel w (channel_id m)) as [channel|].
  - destruct (for_orders_extends w channel (fst (fetch_orders w m))
                (snd (fetch_orders w m))) as (new & Hext & Hin).
    exists new. split; [|exact Hin].
    apply (extends_by_trans _ _ _ [] new (fetch_orders_extends w m) Hext).
  - exists []. split; [apply fetch_orders_extends|constructor].
Qed.

Lemma run_extends resumes ticks : forall m,
  exists new, extends_by m (run resumes ticks m) new.
Proof.
  induction ticks as [|w rest IH]; intros m.
  - exists []. apply extends_by_refl.
  - destruct (check_orders_extends w m) as (new1 & Hext1 & _). simpl.
    destruct (check_orders w m) as [m1|e m1]; simpl in Hext1.
    + destruct (IH m1) as (new2 & Hext2). exists (new1 ++ new2).
      eapply extends_by_trans; eassumption.
    + destruct (resumes e); [|exists new1; exact Hext1].
      destruct (IH m1) as (new2 & Hext2). exists (new1 ++ new2).
      eapply extends_by_trans; eassumption.
Qed.

(** *** No retry after a success *)

Lemma no_retry_snoc calls c :
  no_retry_after_success calls ->
  (forall c0, c0 ∈ calls -> call_error c0 = None ->
     id (call_order c) <> id (call_order c0)) ->
  no_retry_after_success (calls ++ [c]).
Proof.
  induction calls as [|c0 later IH]; intros Hcalls Hfresh; simpl.
  - split; [constructor|exact I].
  - destruct Hcalls as [Hc0 Hlater]. split.
    + intros Hok. apply Forall_app. split; [auto|].
      constructor; [|constructor]. apply Hfresh; [apply list_elem_of_here|exact Hok].
    + apply IH; [exact Hlater|]. intros c1 Hc1. apply Hfresh.
      apply list_elem_of_further, Hc1.
Qed.

Lemma filter_none {A} (P : A -> Prop) `{!forall x, Decision (P x)} (l : list A) :
  Forall (fun x => ~ P x) l -> filter P l = [].
Proof.
  induction 1 as [|x l Hx _ IH]; [reflexivity|].
  rewrite filter_cons_False by exact Hx. exact IH.
Qed.

Lemma one_call_after_success calls i c :
  no_retry_after_success calls ->
  head (filter (fun c => id (call_order c) = i) calls) = Some c ->
  call_error c = None ->
  filter (fun c => id (call_order c) = i) calls = [c].
Proof.
  induction calls as [|c0 later IH]; intros Hcalls Hhead Hok.
  - discriminate.
  - destruct Hcalls as [Hc0 Hlater].
    destruct (decide (id (call_order c0) = i)) as [Hi|Hi].
    + rewrite filter_cons_True in * by exact Hi.
      simpl in Hhead. injection Hhead as ->. f_equal.
      apply filter_none. rewrite <- Hi. auto.
    + rewrite filter_cons_False in * by exact Hi. auto.
Qed.

(** One more call, for an id the registry does not hold yet, keeps the
    monitor consistent if a success puts the id into the registry. *)
Lemma consistent_call m m' c :
  consistent m ->
  id (call_order c) ∉ processed_orders m ->
  notify_calls m' = notify_calls m ++ [c] ->
  processed_orders m ⊆ processed_orders m' ->
  (call_error c = None -> id (call_order c) ∈ processed_orders m') ->
  consistent m'.
Proof.
  intros [Hcalls Hreg] Hfresh Hnew Hsub Hok. split.
  - rewrite Hnew. apply no_retry_snoc; [exact Hcalls|].
    intros c0 Hc0 Hok0 Heq. apply Hfresh. rewrite Heq. auto.
  - intros c0 Hc0 Hok0. rewrite Hnew in Hc0.
    apply elem_of_app in Hc0 as [Hc0|Hc0].
    + apply Hsub. auto.
    + apply list_elem_of_singleton in Hc0. subst c0. auto.
Qed.

Lemma for_orders_consistent w channel orders : forall m,
  consistent m -> consistent (monitor_of (for_orders w channel orders m)).
Proof.
  induction orders as [|order rest IH]; intros m Hm; [exact Hm|].
  destruct (is_new order m) eqn:Hnew.
  - apply is_new_true in Hnew as Hnew'. destruct Hnew' as [_ Hfresh].
    destruct (channel_send w channel (length (notify_calls m)) (make_embed order))
      as [[]|e] eqn:Hsend.
    + rewrite (for_orders_delivered _ _ _ _ _ Hnew Hsend). apply IH.
      apply (consistent_call m _
               {| call_order := order; call_embed := make_embed order;
                  call_error := None |} Hm Hfresh);
        unfold notified, send_notification; rewrite Hsend; simpl;
        [reflexivity|set_solver..].
    + rewrite (for_orders_failed _ _ _ _ _ _ Hnew Hsend).
      apply (consistent_call m _
               {| call_order := order; call_embed := make_embed order;
                  call_error := Some e |} Hm Hfresh);
        unfold send_notification; rewrite Hsend; simpl;
        [reflexivity|set_solver|discriminate].
  - rewrite (for_orders_skip _ _ _ _ _ Hnew). apply IH, Hm.
Qed.

Lemma fetch_orders_consistent w m :
  consistent m -> consistent (snd (fetch_orders w m)).
Proof.
  destruct (fetch_orders_frame w m) as (Hreg & Hcalls & _).
  unfold consistent. rewrite Hreg, Hcalls. auto.
Qed.

Lemma check_orders_consistent w m :
  consistent m -> consistent (monitor_of (check_orders w m)).
Proof.
  intros Hm. rewrite check_orders_for_orders.
  destruct (get_channel w (channel_id m)).
  - apply for_orders_consistent, fetch_orders_consistent, Hm.
  - apply fetch_orders_consistent, Hm.
Qed.

Lemma run_consistent resumes ticks : forall m,
  consistent m -> consistent (run resumes ticks m).
Proof.
  induction ticks as [|w rest IH]; intros m Hm; [exact Hm|].
  pose proof (check_orders_consistent w m Hm) as H1. simpl.
  destruct (check_orders w m) as [m1|e m1]; simpl in H1; [auto|].
  destruct (resumes e); auto.
Qed.

Lemma init_consistent key token channel interval :
  consistent (init key token channel interval).
Proof. split; [exact I|]. intros c Hc. inversion Hc. Qed.

(** C1. No duplicate notification: in every run of the loop from a fresh
    monitor, whatever the feed returns at each firing and whatever the
    scheduler does with exceptions, if the first notification for an order
    id is delivered then it is the only call of [send_notification] for that
    id in the whole run. From the delivery on the id is in the registry of
    seen orders and the filter of the cycle rejects every order with that
    id, so that no later firing adds a call either. *)
Theorem no_duplicate_notification (resumes : string -> bool)
    (ticks more : list Tick) (key token : string) (channel interval : Z)
    (i : string) (c : NotifyCall) :
  let m := run resumes ticks (init key token channel interval) in
  head (calls_for i m) = Some c ->
  call_error c = None ->
  calls_for i m = [c]
  /\ length (calls_for i m) <= 1
  /\ i ∈ processed_orders m
  /\ (forall order, id order = i -> is_new order m = false)
  /\ calls_for i (run resumes more m) = [c].
Proof.
  intros m Hhead Hok.
  assert (Hm : consistent m) by apply run_consistent, init_consistent.
  assert (Hone : calls_for i m = [c])
    by (apply one_call_after_success; [apply Hm|exact Hhead|exact Hok]).
  assert (Hin : i ∈ processed_orders m).
  { apply head_Some_elem_of, list_elem_of_filter in Hhead as [Hi Hc].
    rewrite <- Hi. apply Hm; assumption. }
  split; [exact Hone|]. split; [rewrite Hone; simpl; lia|].
  split; [exact Hin|]. split.
  - intros order <-. apply is_new_false. right. exact Hin.
  - destruct (run_extends resumes more m) as (new & Hnew & _).
    apply one_call_after_success; [apply run_consistent, Hm| |exact Hok].
    unfold calls_for in *. rewrite Hnew, filter_app, Hone. reflexivity.
Qed.

(** C3, as the code has it. Status filter: the loop body passes over an
    order whose status is not [completed] without touching the monitor,
    whatever the registry of seen orders holds, so that in no run is
    [send_notification] called for such an order. The registry is keyed by
    id alone: the id of such an order gets into it only through a completed
    order with the same id (another record, or the order once it has
    completed) whose notification is delivered, and a cycle whose page
    holds no completed order with that id leaves the id as it was. *)
Theorem status_filter (order : PayhipOrder) :
  status order <> "completed" ->
  (forall w channel rest m,
     for_orders w channel (order :: rest) m = for_orders w channel rest m)
  /\ (forall resumes ticks m,
        exists new,
          notify_calls (run resumes ticks m) = notify_calls m ++ new
          /\ Forall (fun c => call_order c <> order
                              /\ status (call_order c) = "completed") new
          /\ (forall i, i ∈ processed_orders (run resumes ticks m) <->
                i ∈ processed_orders m
                \/ exists c, c ∈ new /\ id (call_order c) = i
                             /\ call_error c = None)
          /\ (id order ∈ processed_orders (run resumes ticks m) ->
              id order ∈ processed_orders m
              \/ exists c, c ∈ new
                   /\ call_order c <> order
                   /\ id (call_order c) = id order
                   /\ status (call_order c) = "completed"
                   /\ call_error c = None))
  /\ (forall w m,
        (forall o, o ∈ fst (fetch_orders w m) ->
           status o = "completed" -> id o <> id order) ->
        (id order ∈ processed_orders (monitor_of (check_orders w m))
         <-> id order ∈ processed_orders m)).
Proof.
  intros Hstatus.
  assert (Hother : forall c, status (call_order c) = "completed" ->
            call_order c <> order)
    by (intros c Hc Heq; apply Hstatus; rewrite <- Heq; exact Hc).
  split; [|split].
  - intros w channel rest m. apply for_orders_skip, is_new_false. left. exact Hstatus.
  - intros resumes ticks m.
    destruct (run_extends resumes ticks m) as (new & Hcalls & Hcompleted & Hreg).
    exists new. split; [exact Hcalls|]. split; [|split; [exact Hreg|]].
    + eapply Forall_impl; [exact Hcompleted|]. intros c Hc. auto.
    + intros Hin. apply Hreg in Hin as [Hin|(c & Hc & Hid & Hok)]; [auto|].
      right. exists c. rewrite Forall_forall in Hcompleted.
      pose proof (Hcompleted c Hc) as Hsc. auto 10.
  - intros w m Habsent.
    destruct (check_orders_extends w m) as (new & (_ & Hcompleted & Hreg) & Hpage).
    rewrite Hreg. split; [|auto].
    intros [Hin|(c & Hc & Hid & _)]; [exact Hin|].
    rewrite Forall_forall in Hcompleted, Hpage.
    destruct (Habsent (call_order c) (Hpage c Hc) (Hcompleted c Hc) Hid).
Qed.

(** C3 as stated fails: the feed returns a pending record and a completed
    record with the same id; the pending order is never notified, and still
    its id is in the registry after the cycle. *)
Lemma pending_order_id_added :
  let m1 := monitor_of (check_orders tick_A_twice monitor0) in
  order_A_pending ∈ fst (fetch_orders tick_A_twice monitor0)
  /\ status order_A_pending <> "completed"
  /\ (id order_A_pending ∉ processed_orders monitor0)
  /\ call_order <$> notify_calls m1 = [order_A]
  /\ id order_A_pending ∈ processed_orders m1.
Proof.
  cbn zeta. split; [vm_compute; apply list_elem_of_here|].
  split; [discriminate|]. split; [apply not_elem_of_empty|].
  split; [reflexivity|].
  apply (bool_decide_unpack _). vm_compute. exact I.
Qed.

(** C9. When [bot.get_channel] finds no channel, the cycle ends right after
    the fetch, whose request was made all the same: no notification is
    attempted and the registry of seen orders is untouched, whatever the
    page holds, so that every order is as eligible afterwards as it was
    before. *)
Theorem no_channel_no_dispatch (w : Tick) (m : PayhipMonitor) :
  get_channel w (channel_id m) = None ->
  let m1 := monitor_of (check_orders w m) in
  check_orders w m = Completed (snd (fetch_orders w m))
  /\ notify_calls m1 = notify_calls m
  /\ processed_orders m1 = processed_orders m
  /\ (forall order, is_new order m1 = is_new order m)
  /\ http_calls m1 = http_calls m ++ [fetch_request m].
Proof.
  intros Hnone. cbn zeta. rewrite check_orders_for_orders, Hnone. simpl.
  destruct (fetch_orders_frame w m) as (Hreg & Hcalls & _ & Hhttp).
  repeat split; try assumption.
  intros order. unfold is_new. rewrite Hreg. reflexivity.
Qed.

(** *** A notification that fails *)

Lemma gui_log_log_all_ext messages : forall m m',
  gui_log m = gui_log m' ->
  gui_log (log_all messages m) = gui_log (log_all messages m').
Proof.
  induction messages as [|x messages IH]; intros m m' H; [exact H|].
  apply (IH (log x m) (log x m')). rewrite !gui_log_log, H. reflexivity.
Qed.

(** An exception leaves the loop only from [send_notification]: up to it
    the cycle delivered some notifications and logged one line for each. *)
Lemma for_orders_escaped w channel orders : forall m e m1,
  for_orders w channel orders m = Escaped e m1 ->
  exists order delivered,
    order ∈ orders
    /\ status order = "completed"
    /\ notify_calls m1 = notify_calls m ++ delivered ++ [failed_call order e]
    /\ Forall (fun c => call_error c = None) delivered
    /\ (id order ∉ processed_orders m1)
    /\ gui_log m1 = gui_log (log_all (new_order_line <$> delivered) m).
Proof.
  induction orders as [|order rest IH]; intros m e m1 Hesc; [discriminate|].
  destruct (is_new order m) eqn:Hnew.
  - apply is_new_true in Hnew as Hnew'. destruct Hnew' as [Hstatus Hfresh].
    destruct (channel_send w channel (length (notify_calls m)) (make_embed order))
      as [[]|e0] eqn:Hsend.
    + rewrite (for_orders_delivered _ _ _ _ _ Hnew Hsend) in Hesc.
      destruct (IH _ _ _ Hesc) as (x & delivered & Hx & Hsx & Hcalls & Hok & Hreg & Hlog).
      exists x, ({| call_order := order; call_embed := make_embed order;
                    call_error := None |} :: delivered).
      split; [apply list_elem_of_further, Hx|]. split; [exact Hsx|].
      split; [|split; [constructor; [reflexivity|exact Hok]|split; [exact Hreg|]]].
      * rewrite Hcalls. unfold notified, send_notification. rewrite Hsend.
        simpl. rewrite <- (assoc_L (++)). reflexivity.
      * rewrite Hlog, fmap_cons.
        change (log_all (?x :: ?l) m) with (log_all l (log x m)).
        apply gui_log_log_all_ext. reflexivity.
    + rewrite (for_orders_failed _ _ _ _ _ _ Hnew Hsend) in Hesc.
      injection Hesc as <- <-. exists order, [].
      unfold send_notification. rewrite Hsend. simpl.
      split; [apply list_elem_of_here|]. auto 10.
  - rewrite (for_orders_skip _ _ _ _ _ Hnew) in Hesc.
    destruct (IH _ _ _ Hesc) as (x & delivered & Hx & H).
    exists x, delivered. split; [apply list_elem_of_further, Hx|exact H].
Qed.

(** An unseen completed order of a page is notified when the cycle reaches
    it (or an order with its id before it is). *)
Lemma for_orders_reaches w channel order post pre : forall m,
  status order = "completed" ->
  id order ∉ processed_orders m ->
  (forall n o, o ∈ pre -> channel_send w channel n (make_embed o) = Returns tt) ->
  exists before c after,
    notify_calls (monitor_of (for_orders w channel (pre ++ order :: post) m))
    = notify_calls m ++ before ++ c :: after
    /\ id (call_order c) = id order.
Proof.
  induction pre as [|o pre IH]; intros m Hstatus Hfresh Hpre.
  - assert (Hnew : is_new order m = true) by (apply is_new_true; auto).
    simpl app.
    destruct (channel_send w channel (length (notify_calls m)) (make_embed order))
      as [[]|e] eqn:Hsend.
    + rewrite (for_orders_delivered _ _ _ _ _ Hnew Hsend).
      destruct (for_orders_extends w channel post (notified w channel order m))
        as (new & (Hcalls & _) & _).
      exists [], {| call_order := order; call_embed := make_embed order;
                    call_error := None |}, new.
      split; [|reflexivity]. rewrite Hcalls.
      unfold notified, send_notification. rewrite Hsend. simpl.
      rewrite <- (assoc_L (++)). reflexivity.
    + rewrite (for_orders_failed _ _ _ _ _ _ Hnew Hsend).
      exists [], (failed_call order e), []. split; [|reflexivity].
      unfold send_notification. rewrite Hsend. reflexivity.
  - assert (Hpre' : forall n o', o' ∈ pre ->
              channel_send w channel n (make_embed o') = Returns tt)
      by (intros n o' Ho'; apply Hpre, list_elem_of_further, Ho').
    change ((o :: pre) ++ order :: post) with (o :: pre ++ order :: post).
    destruct (is_new o m) eqn:Hnew.
    + rewrite (for_orders_delivered _ _ _ _ _ Hnew
                 (Hpre _ o (list_elem_of_here _ _))).
      assert (Hcalls1 : notify_calls (notified w channel o m)
                = notify_calls m
                  ++ [{| call_order := o; call_embed := make_embed o;
                         call_error := None |}]).
      { unfold notified, send_notification.
        rewrite (Hpre _ o (list_elem_of_here _ _)). reflexivity. }
      destruct (decide (id o = id order)) as [Hid|Hid].
      * destruct (for_orders_extends w channel (pre ++ order :: post)
                    (notified w channel o m)) as (new & (Hcalls & _) & _).
        exists [], {| call_order := o; call_embed := make_embed o;
                      call_error := None |}, new.
        split; [|exact Hid].
        rewrite Hcalls, Hcalls1, <- (assoc_L (++)). reflexivity.
      * assert (Hfresh' : id order ∉ processed_orders (notified w channel o m))
          by (simpl; rewrite not_elem_of_union, not_elem_of_singleton;
              split; [congruence|exact Hfresh]).
        destruct (IH (notified w channel o m) Hstatus Hfresh' Hpre')
          as (before & c & after & Hc & Hidc).
        exists ({| call_order := o; call_embed := make_embed o;
                   call_error := None |} :: before), c, after.
        split; [|exact Hidc].
        rewrite Hc, Hcalls1, <- (assoc_L (++)). reflexivity.
    + rewrite (for_orders_skip _ _ _ _ _ Hnew). apply IH; assumption.
Qed.

Lemma fetch_orders_quiet w m :
  fst (fetch_orders w m) = [] \/ gui_log (snd (fetch_orders w m)) = gui_log m.
Proof. unfold fetch_orders. destruct (fetch_try w m); simpl; auto. Qed.

(** C2, as the code has it. When the notification of an order fails, the
    exception leaves [check_orders] at that point: the order's id is not
    added to the registry of seen orders, and the cycle has logged one line
    for each notification it delivered before and none for the failure.
    Whether the loop goes on is the scheduler's decision. A later cycle that
    starts from there, finds the channel and gets the order again, still
    completed, behind orders whose notifications are delivered, calls
    [send_notification] again for that order id. *)
Theorem notify_failure_retried (w : Tick) (m m1 : PayhipMonitor) (e : string) :
  check_orders w m = Escaped e m1 ->
  exists order delivered,
    order ∈ fst (fetch_orders w m)
    /\ status order = "completed"
    /\ notify_calls m1 = notify_calls m ++ delivered ++ [failed_call order e]
    /\ Forall (fun c => call_error c = None) delivered
    /\ (id order ∉ processed_orders m1)
    /\ gui_log m1 = gui_log (log_all (new_order_line <$> delivered) m)
    /\ (forall resumes rest,
          run resumes (w :: rest) m
          = if resumes e then run resumes rest m1 else m1)
    /\ forall w2 channel2 pre post,
         get_channel w2 (channel_id m1) = Some channel2 ->
         fst (fetch_orders w2 m1) = pre ++ order :: post ->
         (forall n o, o ∈ pre ->
            channel_send w2 channel2 n (make_embed o) = Returns tt) ->
         exists before c after,
           notify_calls (monitor_of (check_orders w2 m1))
           = notify_calls m1 ++ before ++ c :: after
           /\ id (call_order c) = id order.
Proof.
  intros Hesc.
  assert (Hrun : forall resumes rest,
            run resumes (w :: rest) m
            = if resumes e then run resumes rest m1 else m1)
    by (intros resumes rest; simpl; rewrite Hesc; reflexivity).
  rewrite check_orders_for_orders in Hesc.
  destruct (get_channel w (channel_id m)) as [channel|]; [|discriminate].
  destruct (for_orders_escaped _ _ _ _ _ _ Hesc)
    as (order & delivered & Hin & Hstatus & Hcalls & Hok & Hfresh & Hlog).
  destruct (fetch_orders_frame w m) as (_ & Hcalls0 & _).
  exists order, delivered. repeat split; try assumption.
  - rewrite Hcalls, Hcalls0. reflexivity.
  - rewrite Hlog. apply gui_log_log_all_ext.
    destruct (fetch_orders_quiet w m) as [Hnil|Hquiet]; [|exact Hquiet].
    rewrite Hnil in Hin. inversion Hin.
  - intros w2 channel2 pre post Hchannel Hpage Hpre.
    rewrite check_orders_for_orders, Hchannel, Hpage.
    destruct (fetch_orders_frame w2 m1) as (Hreg2 & Hcalls2 & _).
    rewrite <- Hcalls2. apply for_orders_reaches; [exact Hstatus| |exact Hpre].
    rewrite Hreg2. exact Hfresh.
Qed.

(** ** The claims on sample runs *)

Lemma no_duplicate_notification_witness :
  let m := run always [tick_A; tick_A] (init "key" "token" 42 60) in
  calls_for "A" m = [call_A]
  /\ length (calls_for "A" m) <= 1
  /\ "A" ∈ processed_orders m
  /\ (forall order, id order = "A" -> is_new order m = false)
  /\ calls_for "A" (run always [tick_A] m) = [call_A].
Proof.
  apply (no_duplicate_notification always [tick_A; tick_A] [tick_A]
           "key" "token" 42 60 "A" call_A); reflexivity.
Defined.

Lemma status_filter_witness :
  (forall w channel rest m,
     for_orders w channel (order_B :: rest) m = for_orders w channel rest m)
  /\ (forall resumes ticks m,
        exists new,
          notify_calls (run resumes ticks m) = notify_calls m ++ new
          /\ Forall (fun c => call_order c <> order_B
                              /\ status (call_order c) = "completed") new
          /\ (forall i, i ∈ processed_orders (run resumes ticks m) <->
                i ∈ processed_orders m
                \/ exists c, c ∈ new /\ id (call_order c) = i
                             /\ call_error c = None)
          /\ (id order_B ∈ processed_orders (run resumes ticks m) ->
              id order_B ∈ processed_orders m
              \/ exists c, c ∈ new
                   /\ call_order c <> order_B
                   /\ id (call_order c) = id order_B
                   /\ status (call_order c) = "completed"
                   /\ call_error c = None))
  /\ (forall w m,
        (forall o, o ∈ fst (fetch_orders w m) ->
           status o = "completed" -> id o <> id order_B) ->
        (id order_B ∈ processed_orders (monitor_of (check_orders w m))
         <-> id order_B ∈ processed_orders m)).
Proof. apply (status_filter order_B). discriminate. Defined.

Lemma no_channel_no_dispatch_witness :
  let w := tick_no_channel (Returns (page [OrderDict raw_A])) in
  let m1 := monitor_of (check_orders w monitor0) in
  check_orders w monitor0 = Completed (snd (fetch_orders w monitor0))
  /\ notify_calls m1 = notify_calls monitor0
  /\ processed_orders m1 = processed_orders monitor0
  /\ (forall order, is_new order m1 = is_new order monitor0)
  /\ http_calls m1 = http_calls monitor0 ++ [fetch_request monitor0].
Proof.
  apply (no_channel_no_dispatch
           (tick_no_channel (Returns (page [OrderDict raw_A]))) monitor0).
  reflexivity.
Defined.

Lemma notify_failure_retried_witness :
  let m1 := monitor_of (check_orders tick_A_fails monitor0) in
  exists order delivered,
    order ∈ fst (fetch_orders tick_A_fails monitor0)
    /\ status order = "completed"
    /\ notify_calls m1
       = notify_calls monitor0 ++ delivered ++ [failed_call order "send failed"]
    /\ Forall (fun c => call_error c = None) delivered
    /\ (id order ∉ processed_orders m1)
    /\ gui_log m1 = gui_log (log_all (new_order_line <$> delivered) monitor0)
    /\ (forall resumes rest,
          run resumes (tick_A_fails :: rest) monitor0
          = if resumes "send failed" then run resumes rest m1 else m1)
    /\ forall w2 channel2 pre post,
         get_channel w2 (channel_id m1) = Some channel2 ->
         fst (fetch_orders w2 m1) = pre ++ order :: post ->
         (forall n o, o ∈ pre ->
            channel_send w2 channel2 n (make_embed o) = Returns tt) ->
         exists before c after,
           notify_calls (monitor_of (check_orders w2 m1))
           = notify_calls m1 ++ before ++ c :: after
           /\ id (call_order c) = id order.
Proof.
  apply (notify_failure_retried tick_A_fails monitor0
           (monitor_of (check_orders tick_A_fails monitor0)) "send failed").
  reflexivity.
Defined.

(** C2 as stated fails: the notification of order A fails, the exception
    leaves the cycle, and the log sink has received no line. *)
Lemma notify_failure_not_logged :
  let m1 := monitor_of (check_orders tick_A_fails monitor0) in
  check_orders tick_A_fails monitor0 = Escaped "send failed" m1
  /\ notify_calls m1 = [failed_call order_A "send failed"]
  /\ gui_log m1 = []
  /\ log_content m1 = ""
  /\ ~ exists line, gui_log m1 = deque_append (gui_log monitor0) line.
Proof.
  cbn zeta. repeat split; try reflexivity.
  intros [line Hline]. vm_compute in Hline. discriminate.
Qed.

(** The scenarios of the specification. *)
Example scenario_order_A :
  let m1 := run always [tick_A] monitor0 in
  let m2 := run always [tick_A; tick_A] monitor0 in
  (call_embed <$> notify_calls m1)
  = [{| title := "Someone is buying you're digital product!!!";
        color := green;
        description := "**Order ID:** `A`";
        fields := [{| name := total_name; value := "$9.99"; inline := true |};
                   {| name := email_name; value := "x@y.com"; inline := true |};
                   {| name := products_name; value := "- Widget";
                      inline := false |}] |}]
  /\ gui_log m1 = ["New Order: A"]
  /\ notify_calls m2 = notify_calls m1.
Proof. repeat split; reflexivity. Qed.

Example scenario_order_B :
  notify_calls (run always [tick (Returns (page [OrderDict raw_B])) (Returns tt)]
                  monitor0) = [].
Proof. reflexivity. Qed.

Example scenario_fetch_error :
  let w := tick (Raises "connection refused") (Returns tt) in
  check_orders w monitor0
  = Completed (log "API Error: connection refused"
                 (record_request (fetch_request monitor0) monitor0))
  /\ gui_log (monitor_of (check_orders w monitor0))
     = ["API Error: connection refused"].
Proof. split; reflexivity. Qed.

Example scenario_fail_then_succeed :
  let m2 := run always [tick_A_fails; tick_A; tick_A] monitor0 in
  call_error <$> notify_calls m2 = [Some "send failed"; None]
  /\ gui_log m2 = ["New Order: A"].
Proof. split; reflexivity. Qed.

Example missing_key_message :
  gui_log (snd (fetch_orders
                  (tick (Returns (page [OrderDict raw_A; OrderDict raw_no_status]))
                        (Returns tt)) monitor0))
  = ["API Error: 'status'"].
Proof. reflexivity. Qed.

(** * Further properties of the code *)

(** ** The log sink below its capacity and across a session *)

(** X1. While the log sink has room, [log] evicts nothing: events that fit
    into the 50 lines together with what the sink holds are all kept, after
    the older lines and in the order they happened. *)
Theorem log_under_capacity (messages : list string) (m : PayhipMonitor) :
  length (gui_log m) + length messages <= 50 ->
  gui_log (log_all messages m) = gui_log m ++ messages
  /\ log_content (log_all messages m)
     = (if messages is [] then log_content m
        else join_lines (gui_log m ++ messages)).
Proof.
  intros Hroom.
  assert (Hg : gui_log (log_all messages m) = gui_log m ++ messages).
  { rewrite gui_log_log_all by (change maxlen with 50; lia).
    rewrite length_app. change maxlen with 50.
    replace (length (gui_log m) + length messages - 50) with 0 by lia.
    reflexivity. }
  split; [exact Hg|].
  destruct messages as [|x messages _] using rev_ind; [reflexivity|].
  destruct (messages ++ [x]) eqn:Hsnoc; [destruct messages; discriminate|].
  rewrite <- Hsnoc in *. unfold log_all in *. rewrite foldl_snoc in *.
  rewrite log_content_log. f_equal. exact Hg.
Qed.

Lemma log_under_capacity_witness :
  gui_log (log_all ["a"; "b"] stopped_monitor)
  = gui_log stopped_monitor ++ ["a"; "b"]
  /\ log_content (log_all ["a"; "b"] stopped_monitor)
     = join_lines (gui_log stopped_monitor ++ ["a"; "b"]).
Proof.
  apply (log_under_capacity ["a"; "b"] stopped_monitor). vm_compute. lia.
Defined.

Lemma log_log_ok message m : log_ok m -> log_ok (log message m).
Proof.
  intros [Hlen _]. split; [|reflexivity].
  rewrite gui_log_log. apply deque_append_length, Hlen.
Qed.

Lemma fetch_orders_log_ok w m : log_ok m -> log_ok (snd (fetch_orders w m)).
Proof.
  intros Hm. unfold fetch_orders. destruct (fetch_try w m); simpl; [exact Hm|].
  apply log_log_ok. exact Hm.
Qed.

Lemma for_orders_log_ok w channel orders : forall m,
  log_ok m -> log_ok (monitor_of (for_orders w channel orders m)).
Proof.
  induction orders as [|order rest IH]; intros m Hm; [exact Hm|].
  simpl. destruct (is_new order m); [|apply IH, Hm].
  unfold send_notification.
  destruct (channel_send w channel (length (notify_calls m)) (make_embed order))
    as [[]|e]; [|exact Hm].
  apply IH, log_log_ok. exact Hm.
Qed.

Lemma perform_log_ok c m : log_ok m -> log_ok (perform c m).
Proof.
  intros Hm. destruct c as [w| |bot_error|]; simpl.
  - rewrite check_orders_for_orders.
    destruct (get_channel w (channel_id m)).
    + apply for_orders_log_ok, fetch_orders_log_ok, Hm.
    + apply fetch_orders_log_ok, Hm.
  - unfold run_bot_enter. apply log_log_ok. exact Hm.
  - unfold run_bot_leave. destruct bot_error as [e|]; [|exact Hm].
    apply (log_log_ok ("Bot error: " +:+ e)) in Hm. exact Hm.
  - unfold stop_bot. destruct (bot_running m); simpl; [|exact Hm].
    assert (H1 : log_ok (log "Stopping bot..." m)) by (apply log_log_ok, Hm).
    destruct (bot_closed m); simpl; apply log_log_ok; exact H1.
Qed.

Lemma session_log_ok calls : forall m, log_ok m -> log_ok (session calls m).
Proof.
  induction calls as [|c calls IH]; intros m Hm; [exact Hm|].
  apply (IH (perform c m)), perform_log_ok, Hm.
Qed.

Lemma init_log_ok key token channel interval :
  log_ok (init key token channel interval).
Proof. split; [simpl; unfold maxlen; lia|reflexivity]. Qed.

(** X2. Bounded memory of the log: whatever methods are called on a
    monitor, in whatever order and with whatever answers from the outside,
    the log sink never holds more than 50 lines. *)
Theorem gui_log_bounded (calls : list Call) (key token : string)
    (channel interval : Z) :
  length (gui_log (session calls (init key token channel interval))) <= 50.
Proof. apply (session_log_ok calls), init_log_ok. Qed.

(** X3. The displayed text is never stale: after any sequence of method
    calls [log_content] is the lines of the log sink joined by newlines. *)
Theorem log_content_in_sync (calls : list Call) (key token : string)
    (channel interval : Z) :
  let m := session calls (init key token channel interval) in
  log_content m = join_lines (gui_log m).
Proof. apply (session_log_ok calls), init_log_ok. Qed.

(** ** The registry and the notifications across a session *)

Lemma stop_bot_frame m :
  processed_orders (stop_bot m) = processed_orders m
  /\ notify_calls (stop_bot m) = notify_calls m
  /\ http_calls (stop_bot m) = http_calls m
  /\ payhip_key (stop_bot m) = payhip_key m.
Proof.
  unfold stop_bot. destruct (bot_running m); simpl; [|auto].
  destruct (bot_closed m); simpl; auto.
Qed.

Lemma run_bot_enter_frame m :
  processed_orders (run_bot_enter m) = processed_orders m
  /\ notify_calls (run_bot_enter m) = notify_calls m
  /\ http_calls (run_bot_enter m) = http_calls m
  /\ payhip_key (run_bot_enter m) = payhip_key m.
Proof. unfold run_bot_enter. simpl. auto. Qed.

Lemma run_bot_leave_frame bot_error m :
  processed_orders (run_bot_leave bot_error m) = processed_orders m
  /\ notify_calls (run_bot_leave bot_error m) = notify_calls m
  /\ http_calls (run_bot_leave bot_error m) = http_calls m
  /\ payhip_key (run_bot_leave bot_error m) = payhip_key m.
Proof. unfold run_bot_leave. destruct bot_error; simpl; auto. Qed.

Lemma extends_by_same m m' :
  processed_orders m' = processed_orders m ->
  notify_calls m' = notify_calls m ->
  extends_by m m' [].
Proof.
  intros Hreg Hcalls. repeat split; rewrite ?app_nil_r, ?Hreg; auto.
  intros [H|(c & Hc & _)]; [assumption|]. inversion Hc.
Qed.

Lemma perform_extends c m : exists new, extends_by m (perform c m) new.
Proof.
  destruct c as [w| |bot_error|]; simpl.
  - destruct (check_orders_extends w m) as (new & Hext & _). eauto.
  - exists []. destruct (run_bot_enter_frame m) as (H1 & H2 & _).
    apply extends_by_same; assumption.
  - exists []. destruct (run_bot_leave_frame bot_error m) as (H1 & H2 & _).
    apply extends_by_same; assumption.
  - exists []. destruct (stop_bot_frame m) as (H1 & H2 & _).
    apply extends_by_same; assumption.
Qed.

Lemma session_extends calls : forall m,
  exists new, extends_by m (session calls m) new.
Proof.
  induction calls as [|c calls IH]; intros m.
  - exists []. apply extends_by_refl.
  - destruct (perform_extends c m) as (new1 & H1).
    destruct (IH (perform c m)) as (new2 & H2).
    exists (new1 ++ new2). eapply extends_by_trans; eassumption.
Qed.

Lemma perform_consistent c m : consistent m -> consistent (perform c m).
Proof.
  intros Hm. destruct c as [w| |bot_error|]; simpl.
  - apply check_orders_consistent, Hm.
  - destruct (run_bot_enter_frame m) as (H1 & H2 & _).
    unfold consistent. rewrite H1, H2. exact Hm.
  - destruct (run_bot_leave_frame bot_error m) as (H1 & H2 & _).
    unfold consistent. rewrite H1, H2. exact Hm.
  - destruct (stop_bot_frame m) as (H1 & H2 & _).
    unfold consistent. rewrite H1, H2. exact Hm.
Qed.

Lemma session_consistent calls : forall m,
  consistent m -> consistent (session calls m).
Proof.
  induction calls as [|c calls IH]; intros m Hm; [exact Hm|].
  apply (IH (perform c m)), perform_consistent, Hm.
Qed.

Lemma no_retry_delivered_NoDup calls :
  no_retry_after_success calls ->
  NoDup ((fun c => id (call_order c))
           <$> filter (fun c => call_error c = None) calls).
Proof.
  induction calls as [|c later IH]; intros Hcalls; [constructor|].
  destruct Hcalls as [Hc Hlater].
  destruct (decide (call_error c = None)) as [Hok|Hfailed].
  - rewrite filter_cons_True by exact Hok. rewrite fmap_cons.
    constructor; [|auto].
    intros Hin. apply list_elem_of_fmap in Hin as (c' & Hid & Hc').
    apply list_elem_of_filter in Hc' as [_ Hc'].
    specialize (Hc Hok). rewrite Forall_forall in Hc.
    apply (Hc c' Hc'). symmetry. exact Hid.
  - rewrite filter_cons_False by exact Hfailed. auto.
Qed.

Lemma delivered_ids_NoDup calls key token channel interval :
  NoDup (delivered_ids (session calls (init key token channel interval))).
Proof.
  apply no_retry_delivered_NoDup.
  apply (session_consistent calls), init_consistent.
Qed.

(** X4. At most one delivered notification per order: after any sequence
    of method calls on a fresh monitor, with any feed, any failures of
    [channel.send] and any repetition of orders within or across pages, the
    delivered notifications are for pairwise different order ids. *)
Theorem delivered_once (calls : list Call) (key token : string)
    (channel interval : Z) :
  NoDup (delivered_ids (session calls (init key token channel interval))).
Proof. apply delivered_ids_NoDup. Qed.

Lemma registry_delivered_ids calls key token channel interval :
  let m := session calls (init key token channel interval) in
  processed_orders m = list_to_set (delivered_ids m).
Proof.
  intros m.
  destruct (session_extends calls (init key token channel interval))
    as (new & Hcalls & _ & Hreg).
  fold m in Hcalls, Hreg. simpl in Hcalls.
  apply set_eq. intros i. rewrite Hreg, elem_of_list_to_set.
  unfold delivered_ids, delivered. rewrite Hcalls, list_elem_of_fmap.
  split.
  - intros [Hi|(c & Hc & Hid & Hok)]; [set_solver|].
    exists c. split; [auto|]. apply list_elem_of_filter. auto.
  - intros (c & Hid & Hc). apply list_elem_of_filter in Hc as [Hok Hc].
    right. exists c. auto.
Qed.

(** X5. The registry of seen orders is exactly the set of ids of the orders
    whose notification was delivered: an id gets in by a delivery and by
    nothing else, and a failed attempt leaves no trace in it. Its size is
    the number of delivered notifications. *)
Theorem registry_is_delivered (calls : list Call) (key token : string)
    (channel interval : Z) :
  let m := session calls (init key token channel interval) in
  processed_orders m = list_to_set (delivered_ids m)
  /\ size (processed_orders m) = length (delivered m).
Proof.
  intros m.
  pose proof (registry_delivered_ids calls key token channel interval) as Hset.
  cbn zeta in Hset. fold m in Hset.
  split; [exact Hset|].
  rewrite Hset, size_list_to_set by apply delivered_ids_NoDup.
  apply length_fmap.
Qed.

(** X6. Nothing is ever forgotten: no method removes an id from the
    registry of seen orders (it has no eviction), and the notifications and
    requests made so far stay on record in their order. *)
Theorem registry_grows (calls : list Call) (m : PayhipMonitor) :
  processed_orders m ⊆ processed_orders (session calls m)
  /\ notify_calls m `prefix_of` notify_calls (session calls m)
  /\ forall order, is_new order m = false ->
       is_new order (session calls m) = false.
Proof.
  destruct (session_extends calls m) as (new & Hcalls & _ & Hreg).
  assert (Hsub : processed_orders m ⊆ processed_orders (session calls m))
    by (intros i Hi; apply Hreg; auto).
  split; [exact Hsub|]. split; [exists new; exact Hcalls|].
  intros order Hseen. apply is_new_false in Hseen. apply is_new_false.
  destruct Hseen as [H|H]; [left; exact H|right; apply Hsub, H].
Qed.

(** ** One fetch cycle *)

Lemma for_orders_all_delivered w channel orders : forall m,
  (forall n order, order ∈ orders ->
     channel_send w channel n (make_embed order) = Returns tt) ->
  exists m1,
    for_orders w channel orders m = Completed m1
    /\ processed_orders m ⊆ processed_orders m1
    /\ forall order, order ∈ orders -> status order = "completed" ->
         id order ∈ processed_orders m1.
Proof.
  induction orders as [|order rest IH]; intros m Hsend.
  - exists m. split; [reflexivity|]. split; [reflexivity|].
    intros order Hin. inversion Hin.
  - assert (Hrest : forall n o, o ∈ rest ->
              channel_send w channel n (make_embed o) = Returns tt)
      by (intros n o Ho; apply Hsend, list_elem_of_further, Ho).
    destruct (is_new order m) eqn:Hnew.
    + rewrite (for_orders_delivered _ _ _ _ _ Hnew
                 (Hsend _ order (list_elem_of_here _ _))).
      destruct (IH (notified w channel order m) Hrest) as (m1 & Hm1 & Hsub & Hall).
      exists m1. split; [exact Hm1|].
      assert (Hsub0 : processed_orders m ⊆ processed_orders (notified w channel order m))
        by (simpl; set_solver).
      split; [set_solver|].
      intros o Ho Hstatus. apply elem_of_cons in Ho as [->|Ho]; [|auto].
      apply Hsub. simpl. set_solver.
    + rewrite (for_orders_skip _ _ _ _ _ Hnew).
      destruct (IH m Hrest) as (m1 & Hm1 & Hsub & Hall).
      exists m1. split; [exact Hm1|]. split; [exact Hsub|].
      intros o Ho Hstatus. apply elem_of_cons in Ho as [->|Ho]; [|auto].
      apply is_new_false in Hnew as [Hnew|Hnew]; [contradiction|].
      apply Hsub, Hnew.
Qed.

Lemma check_orders_all_delivered w m channel :
  get_channel w (channel_id m) = Some channel ->
  (forall n order, order ∈ fst (fetch_orders w m) ->
     channel_send w channel n (make_embed order) = Returns tt) ->
  exists m1,
    check_orders w m = Completed m1
    /\ forall order, order ∈ fst (fetch_orders w m) ->
         status order = "completed" -> id order ∈ processed_orders m1.
Proof.
  intros Hchannel Hsend. rewrite check_orders_for_orders, Hchannel.
  destruct (for_orders_all_delivered w channel (fst (fetch_orders w m))
              (snd (fetch_orders w m)) Hsend) as (m1 & Hm1 & _ & Hall).
  exists m1. auto.
Qed.

(** X7. No missed notification when nothing fails: a cycle that finds the
    channel and whose messages are all accepted by [channel.send] returns
    normally, and afterwards every completed order of the fetched page is in
    the registry of seen orders: it was notified in this cycle or before. *)
Theorem cycle_covers_page (w : Tick) (m : PayhipMonitor) (channel : Channel) :
  get_channel w (channel_id m) = Some channel ->
  (forall n order, order ∈ fst (fetch_orders w m) ->
     channel_send w channel n (make_embed order) = Returns tt) ->
  exists m1,
    check_orders w m = Completed m1
    /\ forall order, order ∈ fst (fetch_orders w m) ->
         status order = "completed" ->
         id order ∈ processed_orders m1 /\ is_new order m1 = false.
Proof.
  intros Hchannel Hsend.
  destruct (check_orders_all_delivered w m channel Hchannel Hsend)
    as (m1 & Hm1 & Hall).
  exists m1. split; [exact Hm1|]. intros order Hin Hstatus.
  split; [auto|]. apply is_new_false. right. auto.
Qed.

Lemma cycle_covers_page_witness :
  exists m1,
    check_orders tick_AB monitor0 = Completed m1
    /\ forall order, order ∈ fst (fetch_orders tick_AB monitor0) ->
         status order = "completed" ->
         id order ∈ processed_orders m1 /\ is_new order m1 = false.
Proof.
  apply (cycle_covers_page tick_AB monitor0 (TextChannel 42)); reflexivity.
Defined.

Lemma for_orders_nothing_new w channel orders m :
  Forall (fun order => is_new order m = false) orders ->
  for_orders w channel orders m = Completed m.
Proof.
  induction 1 as [|order rest Hseen _ IH]; [reflexivity|].
  rewrite (for_orders_skip _ _ _ _ _ Hseen). exact IH.
Qed.

Lemma check_orders_nothing_new w m :
  (forall order, order ∈ fst (fetch_orders w m) -> is_new order m = false) ->
  check_orders w m = Completed (snd (fetch_orders w m)).
Proof.
  intros Hseen. rewrite check_orders_for_orders.
  destruct (get_channel w (channel_id m)) as [channel|]; [|reflexivity].
  apply for_orders_nothing_new, Forall_forall. intros order Hin.
  destruct (fetch_orders_frame w m) as (Hreg & _).
  unfold is_new. rewrite Hreg. apply (Hseen order Hin).
Qed.

(** X8. A cycle with nothing new does nothing: when every order of the
    fetched page is already seen or not completed, [check_orders] ends as
    the fetch left the monitor, with no notification and no change of the
    registry, and it never asks [channel.send] anything. *)
Theorem cycle_without_news (w : Tick) (m : PayhipMonitor) :
  (forall order, order ∈ fst (fetch_orders w m) -> is_new order m = false) ->
  check_orders w m = Completed (snd (fetch_orders w m))
  /\ notify_calls (monitor_of (check_orders w m)) = notify_calls m
  /\ processed_orders (monitor_of (check_orders w m)) = processed_orders m.
Proof.
  intros Hseen. rewrite (check_orders_nothing_new w m Hseen). simpl.
  destruct (fetch_orders_frame w m) as (Hreg & Hcalls & _). auto.
Qed.

Lemma cycle_without_news_witness :
  let w := tick (Returns (page [OrderDict raw_B])) (Raises "unreachable") in
  check_orders w monitor0 = Completed (snd (fetch_orders w monitor0))
  /\ notify_calls (monitor_of (check_orders w monitor0)) = notify_calls monitor0
  /\ processed_orders (monitor_of (check_orders w monitor0))
     = processed_orders monitor0.
Proof.
  apply (cycle_without_news
           (tick (Returns (page [OrderDict raw_B])) (Raises "unreachable"))
           monitor0).
  intros order Hin. vm_compute in Hin.
  apply list_elem_of_singleton in Hin. subst order. reflexivity.
Defined.

(** X9. Polling the same page again is silent: after a cycle that found
    the channel and delivered all its messages, a cycle whose page holds
    only orders of that earlier page sends nothing and marks nothing. *)
Theorem repeated_page_is_silent (w1 w2 : Tick) (m : PayhipMonitor)
    (channel : Channel) :
  get_channel w1 (channel_id m) = Some channel ->
  (forall n order, order ∈ fst (fetch_orders w1 m) ->
     channel_send w1 channel n (make_embed order) = Returns tt) ->
  let m1 := monitor_of (check_orders w1 m) in
  (forall order, order ∈ fst (fetch_orders w2 m1) ->
     order ∈ fst (fetch_orders w1 m)) ->
  check_orders w2 m1 = Completed (snd (fetch_orders w2 m1))
  /\ notify_calls (monitor_of (check_orders w2 m1)) = notify_calls m1
  /\ processed_orders (monitor_of (check_orders w2 m1)) = processed_orders m1.
Proof.
  intros Hchannel Hsend m1 Hsame.
  destruct (check_orders_all_delivered w1 m channel Hchannel Hsend)
    as (m1' & Hm1 & Hall).
  assert (Hm1' : m1 = m1') by (unfold m1; rewrite Hm1; reflexivity).
  assert (Hseen : forall order, order ∈ fst (fetch_orders w2 m1) ->
            is_new order m1 = false).
  { intros order Hin. apply is_new_false.
    destruct (decide (status order = "completed")) as [Hs|Hs]; [right|left; exact Hs].
    rewrite Hm1'. apply Hall; [apply Hsame, Hin|exact Hs]. }
  rewrite (check_orders_nothing_new w2 m1 Hseen). simpl.
  destruct (fetch_orders_frame w2 m1) as (Hreg & Hcalls & _). auto.
Qed.

Lemma repeated_page_is_silent_witness :
  let m1 := monitor_of (check_orders tick_AB monitor0) in
  check_orders tick_A m1 = Completed (snd (fetch_orders tick_A m1))
  /\ notify_calls (monitor_of (check_orders tick_A m1)) = notify_calls m1
  /\ processed_orders (monitor_of (check_orders tick_A m1)) = processed_orders m1.
Proof.
  apply (repeated_page_is_silent tick_AB tick_A monitor0 (TextChannel 42));
    [reflexivity|reflexivity|].
  intros order Hin. vm_compute in Hin.
  apply list_elem_of_singleton in Hin. subst order. vm_compute.
  apply list_elem_of_here.
Defined.

Lemma for_orders_in_feed_order w channel orders : forall m,
  exists new,
    notify_calls (monitor_of (for_orders w channel orders m))
    = notify_calls m ++ new
    /\ call_order <$> new `sublist_of` orders.
Proof.
  induction orders as [|order rest IH]; intros m.
  - exists []. split; [symmetry; apply app_nil_r|constructor].
  - destruct (is_new order m) eqn:Hnew.
    + destruct (channel_send w channel (length (notify_calls m)) (make_embed order))
        as [[]|e] eqn:Hsend.
      * rewrite (for_orders_delivered _ _ _ _ _ Hnew Hsend).
        destruct (IH (notified w channel order m)) as (new & Hcalls & Hsub).
        exists ({| call_order := order; call_embed := make_embed order;
                   call_error := None |} :: new).
        split; [|rewrite fmap_cons; apply sublist_skip, Hsub].
        rewrite Hcalls. unfold notified, send_notification. rewrite Hsend.
        simpl. rewrite <- (assoc_L (++)). reflexivity.
      * rewrite (for_orders_failed _ _ _ _ _ _ Hnew Hsend).
        exists [failed_call order e].
        split; [|apply sublist_skip, sublist_nil_l].
        unfold send_notification. rewrite Hsend. reflexivity.
    + rewrite (for_orders_skip _ _ _ _ _ Hnew).
      destruct (IH m) as (new & Hcalls & Hsub).
      exists new. split; [exact Hcalls|apply sublist_cons, Hsub].
Qed.

(** X10. Notifications follow the feed: the orders a cycle calls
    [send_notification] for are orders of the fetched page, taken in the
    order of the page and each record at most once; nothing is notified that
    the feed did not return in that very cycle. *)
Theorem notifications_in_feed_order (w : Tick) (m : PayhipMonitor) :
  exists new,
    notify_calls (monitor_of (check_orders w m)) = notify_calls m ++ new
    /\ call_order <$> new `sublist_of` fst (fetch_orders w m)
    /\ length new <= length (fst (fetch_orders w m)).
Proof.
  rewrite check_orders_for_orders.
  destruct (fetch_orders_frame w m) as (_ & Hcalls0 & _).
  destruct (get_channel w (channel_id m)) as [channel|].
  - destruct (for_orders_in_feed_order w channel (fst (fetch_orders w m))
                (snd (fetch_orders w m))) as (new & Hcalls & Hsub).
    exists new. rewrite Hcalls, Hcalls0. split; [reflexivity|].
    split; [exact Hsub|].
    apply sublist_length in Hsub. rewrite length_fmap in Hsub. exact Hsub.
  - exists []. simpl. rewrite Hcalls0, app_nil_r.
    split; [reflexivity|]. split; [apply sublist_nil_l|simpl; lia].
Qed.

Lemma for_orders_completed w channel orders : forall m m1,
  for_orders w channel orders m = Completed m1 ->
  exists new,
    notify_calls m1 = notify_calls m ++ new
    /\ Forall (fun c => call_error c = None) new
    /\ gui_log m1 = gui_log (log_all (new_order_line <$> new) m).
Proof.
  induction orders as [|order rest IH]; intros m m1 Hdone.
  - injection Hdone as <-. exists [].
    split; [symmetry; apply app_nil_r|]. split; [constructor|reflexivity].
  - destruct (is_new order m) eqn:Hnew.
    + destruct (channel_send w channel (length (notify_calls m)) (make_embed order))
        as [[]|e] eqn:Hsend.
      * rewrite (for_orders_delivered _ _ _ _ _ Hnew Hsend) in Hdone.
        destruct (IH _ _ Hdone) as (new & Hcalls & Hok & Hlog).
        exists ({| call_order := order; call_embed := make_embed order;
                   call_error := None |} :: new).
        split; [|split; [constructor; [reflexivity|exact Hok]|]].
        -- rewrite Hcalls. unfold notified, send_notification. rewrite Hsend.
           simpl. rewrite <- (assoc_L (++)). reflexivity.
        -- rewrite Hlog, fmap_cons.
           change (log_all (?x :: ?l) m) with (log_all l (log x m)).
           apply gui_log_log_all_ext. reflexivity.
      * rewrite (for_orders_failed _ _ _ _ _ _ Hnew Hsend) in Hdone.
        discriminate.
    + rewrite (for_orders_skip _ _ _ _ _ Hnew) in Hdone. apply IH, Hdone.
Qed.

(** X11. The log of a cycle that returns normally: every notification it
    attempted was delivered, and after the fetch (which logs one line if it
    failed, and then nothing is notified) it logged exactly one line
    [New Order: id] per delivered notification, in the order of delivery. *)
Theorem completed_cycle_log (w : Tick) (m m1 : PayhipMonitor) :
  check_orders w m = Completed m1 ->
  exists new,
    notify_calls m1 = notify_calls m ++ new
    /\ Forall (fun c => call_error c = None) new
    /\ gui_log m1
       = gui_log (log_all (new_order_line <$> new) (snd (fetch_orders w m)))
    /\ (fetch_failure w m -> new = []).
Proof.
  intros Hdone. rewrite check_orders_for_orders in Hdone.
  destruct (fetch_orders_frame w m) as (_ & Hcalls0 & _).
  assert (Hnil : forall new,
            notify_calls m1 = notify_calls m ++ new ->
            fetch_failure w m -> new = []).
  { intros new Hnew Hfail.
    destruct (fetch_failure_logged w m Hfail) as [cause Hfetch].
    pose proof (check_orders_no_orders w m _ Hfetch) as Hcycle.
    rewrite check_orders_for_orders in Hcycle. rewrite Hcycle in Hdone.
    injection Hdone as <-. simpl in Hnew.
    apply (f_equal length) in Hnew. rewrite length_app in Hnew.
    destruct new; [reflexivity|simpl in Hnew; lia]. }
  destruct (get_channel w (channel_id m)) as [channel|].
  - destruct (for_orders_completed _ _ _ _ _ Hdone) as (new & Hcalls & Hok & Hlog).
    exists new. rewrite Hcalls0 in Hcalls. auto.
  - injection Hdone as <-. exists [].
    rewrite app_nil_r. split; [exact Hcalls0|]. split; [constructor|].
    split; [reflexivity|auto].
Qed.

Lemma completed_cycle_log_witness :
  exists new,
    notify_calls (monitor_of (check_orders tick_AB monitor0))
    = notify_calls monitor0 ++ new
    /\ Forall (fun c => call_error c = None) new
    /\ gui_log (monitor_of (check_orders tick_AB monitor0))
       = gui_log (log_all (new_order_line <$> new)
                    (snd (fetch_orders tick_AB monitor0)))
    /\ (fetch_failure tick_AB monitor0 -> new = []).
Proof.
  apply (completed_cycle_log tick_AB monitor0
           (monitor_of (check_orders tick_AB monitor0))).
  reflexivity.
Defined.

(** ** The order feed client, beyond its failures *)

Lemma no_malformed_record l :
  ~ Exists malformed l -> Forall (fun r => ~ malformed r) l.
Proof.
  induction l as [|r l IH]; intros H; constructor.
  - intros Hr. apply H. left. exact Hr.
  - apply IH. intros Hl. apply H. right. exact Hl.
Qed.

(** X12. The six failure modes are the only ones: outside them
    [fetch_orders] writes nothing to the log and changes nothing but the
    record of the request, and its result is one order per record of the
    page, a page without a [data] entry counting as empty. *)
Theorem fetch_quiet_on_success (w : Tick) (m : PayhipMonitor) :
  ~ fetch_failure w m ->
  snd (fetch_orders w m) = record_request (fetch_request m) m
  /\ gui_log (snd (fetch_orders w m)) = gui_log m
  /\ exists r data l,
       requests_get w (fetch_request m) = Returns r
       /\ json r = Returns (Dict data)
       /\ default (Records []) data = Records l
       /\ Forall2 represents l (fst (fetch_orders w m)).
Proof.
  intros Hok.
  destruct (requests_get w (fetch_request m)) as [r|e] eqn:Hget;
    [|destruct Hok; eapply transport_error; eassumption].
  destruct (raise_for_status r) as [[]|e] eqn:Hstatus;
    [|destruct Hok; eapply error_status; eassumption].
  destruct (json r) as [[data|e]|e] eqn:Hjson;
    [|destruct Hok; eapply body_not_dict; eassumption
     |destruct Hok; eapply body_not_json; eassumption].
  assert (Hl : exists l, default (Records []) data = Records l
                 /\ Forall (fun x => ~ malformed x) l).
  { destruct data as [[l|e]|]; simpl.
    - exists l. split; [reflexivity|]. apply no_malformed_record.
      intros Hbad. apply Hok. eapply record_malformed; eassumption.
    - destruct Hok. eapply data_not_iterable; eassumption.
    - exists []. split; [reflexivity|constructor]. }
  destruct Hl as (l & Hdata & Hl).
  destruct (mapM_make_order_well_formed l Hl) as [orders [Hmap Hrep]].
  assert (Hfetch : fetch_orders w m = (orders, record_request (fetch_request m) m)).
  { unfold fetch_orders, fetch_try. rewrite Hget. simpl. rewrite Hstatus. simpl.
    rewrite Hjson. simpl. rewrite Hdata. simpl. rewrite Hmap. reflexivity. }
  rewrite Hfetch. simpl. split; [reflexivity|]. split; [reflexivity|].
  exists r, data, l. auto.
Qed.

Lemma fetch_quiet_on_success_witness :
  snd (fetch_orders tick_AB monitor0)
  = record_request (fetch_request monitor0) monitor0
  /\ gui_log (snd (fetch_orders tick_AB monitor0)) = gui_log monitor0
  /\ exists r data l,
       requests_get tick_AB (fetch_request monitor0) = Returns r
       /\ json r = Returns (Dict data)
       /\ default (Records []) data = Records l
       /\ Forall2 represents l (fst (fetch_orders tick_AB monitor0)).
Proof.
  apply (fetch_quiet_on_success tick_AB monitor0).
  intros [e H|r e H1 H2|r e H1 H2|r e H1 H2|r e H1 H2|r l H1 H2 H3];
    try discriminate;
    injection H1 as <-; try discriminate.
  injection H2 as <-.
  apply Exists_cons in H3 as [H3|H3]; [inversion H3; discriminate|].
  apply Exists_cons in H3 as [H3|H3]; [inversion H3; discriminate|].
  inversion H3.
Defined.

Lemma make_order_first_missing d k :
  first_missing d = Some k -> make_order (OrderDict d) = Raises (key_error k).
Proof.
  unfold first_missing. simpl.
  destruct (raw_id d), (raw_status d), (raw_total d), (raw_customer_email d);
    simpl; intros H; try discriminate; injection H as <-; reflexivity.
Qed.

Lemma mapM_make_order_first_bad pre r post e :
  Forall (fun x => ~ malformed x) pre ->
  make_order r = Raises e ->
  mapM make_order (pre ++ r :: post) = Raises e.
Proof.
  intros Hpre Hr. induction Hpre as [|x pre Hx _ IH]; simpl.
  - rewrite Hr. reflexivity.
  - destruct (make_order_well_formed x Hx) as [o [Ho _]].
    rewrite Ho. simpl. rewrite IH. reflexivity.
Qed.

(** X13. The log names the first missing key: when the first record of a
    page from which no order can be built is a dict, the line logged is
    [API Error: 'k'] for the first key [k] among [id], [status], [total],
    [customer_email] that this record lacks, whatever comes after it. *)
Theorem missing_key_is_named (w : Tick) (m : PayhipMonitor) (r : Response)
    (pre post : list RawRecord) (d : RawOrder) (k : string) :
  requests_get w (fetch_request m) = Returns r ->
  raise_for_status r = Returns tt ->
  json r = Returns (Dict (Some (Records (pre ++ OrderDict d :: post)))) ->
  Forall (fun x => ~ malformed x) pre ->
  first_missing d = Some k ->
  fetch_orders w m
  = ([], log ("API Error: '" +:+ k +:+ "'") (record_request (fetch_request m) m)).
Proof.
  intros Hget Hstatus Hjson Hpre Hk.
  unfold fetch_orders, fetch_try. rewrite Hget. simpl. rewrite Hstatus. simpl.
  rewrite Hjson. simpl.
  rewrite (mapM_make_order_first_bad pre _ post _ Hpre
             (make_order_first_missing d k Hk)).
  reflexivity.
Qed.

Lemma missing_key_is_named_witness :
  let w := tick (Returns (page [OrderDict raw_A;
                                OrderDict raw_no_status_no_total;
                                OrderDict raw_no_status]))
                (Returns tt) in
  fetch_orders w monitor0
  = ([], log "API Error: 'status'"
           (record_request (fetch_request monitor0) monitor0)).
Proof.
  apply (missing_key_is_named
           (tick (Returns (page [OrderDict raw_A;
                                 OrderDict raw_no_status_no_total;
                                 OrderDict raw_no_status]))
                 (Returns tt))
           monitor0
           (page [OrderDict raw_A; OrderDict raw_no_status_no_total;
                  OrderDict raw_no_status])
           [OrderDict raw_A] [OrderDict raw_no_status] raw_no_status_no_total
           "status"); try reflexivity.
  repeat constructor. intros H. inversion H; discriminate.
Defined.

(** X14. A record is decoded into an order exactly when it is a dict that
    has the four keys [id], [status], [total] and [customer_email]; the
    order then carries their values, and the value of [items] or no items
    at all when that key is absent. *)
Theorem make_order_exact (r : RawRecord) (o : PayhipOrder) :
  make_order r = Returns o <-> represents r o.
Proof.
  split.
  - intros Hmake. destruct r as [d|e]; [|discriminate].
    simpl in Hmake.
    destruct (raw_id d) as [i|] eqn:Hi; [|discriminate].
    destruct (raw_status d) as [s|] eqn:Hs; [|discriminate].
    destruct (raw_total d) as [t|] eqn:Ht; [|discriminate].
    destruct (raw_customer_email d) as [c|] eqn:Hc; [|discriminate].
    simpl in Hmake. injection Hmake as <-.
    exists d. simpl. auto 10.
  - intros (d & -> & Hi & Hs & Ht & Hc & Hitems).
    simpl. rewrite Hi, Hs, Ht, Hc. simpl. rewrite <- Hitems.
    destruct o. reflexivity.
Qed.

(** X15. The [items] key is optional end to end: a dict with the four
    required keys and no [items] gives an order without items, and the
    message built for that order has the two fields for total and e-mail
    and no products field. *)
Theorem items_are_optional (d : RawOrder) :
  first_missing d = None ->
  raw_items d = None ->
  exists o,
    make_order (OrderDict d) = Returns o
    /\ items o = []
    /\ field_value products_name (make_embed o) = None
    /\ (name <$> fields (make_embed o)) = [total_name; email_name].
Proof.
  unfold first_missing. intros Hkeys Hitems.
  destruct (raw_id d) as [i|] eqn:Hi; [|discriminate].
  destruct (raw_status d) as [s|] eqn:Hs; [|discriminate].
  destruct (raw_total d) as [t|] eqn:Ht; [|discriminate].
  destruct (raw_customer_email d) as [c|] eqn:Hc; [|discriminate].
  eexists. split; [simpl; rewrite Hi, Hs, Ht, Hc, Hitems; reflexivity|].
  repeat split; reflexivity.
Qed.

Lemma items_are_optional_witness :
  exists o,
    make_order (OrderDict raw_no_items) = Returns o
    /\ items o = []
    /\ field_value products_name (make_embed o) = None
    /\ (name <$> fields (make_embed o)) = [total_name; email_name].
Proof. apply (items_are_optional raw_no_items); reflexivity. Defined.

(** ** Requests across a session *)

Lemma for_orders_requests w channel orders : forall m,
  payhip_key (monitor_of (for_orders w channel orders m)) = payhip_key m
  /\ http_calls (monitor_of (for_orders w channel orders m)) = http_calls m.
Proof.
  induction orders as [|order rest IH]; intros m; [auto|].
  simpl. destruct (is_new order m); [|apply IH].
  unfold send_notification.
  destruct (channel_send w channel (length (notify_calls m)) (make_embed order))
    as [[]|e]; [|auto].
  destruct (IH (log ("New Order: " +:+ id order)
                  (add_processed (id order)
                     (record_call
                        {| call_order := order; call_embed := make_embed order;
                           call_error := None |} m)))) as [H1 H2].
  rewrite H1, H2. auto.
Qed.

Lemma fetch_orders_key w m : payhip_key (snd (fetch_orders w m)) = payhip_key m.
Proof. unfold fetch_orders. destruct (fetch_try w m); reflexivity. Qed.

Lemma perform_requests c m :
  payhip_key (perform c m) = payhip_key m
  /\ http_calls (perform c m)
     = http_calls m ++ replicate (cycles [c]) (orders_request (payhip_key m)).
Proof.
  destruct c as [w| |bot_error|]; unfold perform, cycles, replicate.
  - rewrite check_orders_for_orders.
    destruct (fetch_orders_frame w m) as (_ & _ & _ & Hhttp).
    pose proof (fetch_orders_key w m) as Hkey.
    destruct (get_channel w (channel_id m)) as [channel|]; cbn [monitor_of].
    + destruct (for_orders_requests w channel (fst (fetch_orders w m))
                  (snd (fetch_orders w m))) as [H1 H2].
      rewrite H1, H2. auto.
    + auto.
  - destruct (run_bot_enter_frame m) as (_ & _ & H1 & H2).
    rewrite H1, H2, app_nil_r. auto.
  - destruct (run_bot_leave_frame bot_error m) as (_ & _ & H1 & H2).
    rewrite H1, H2, app_nil_r. auto.
  - destruct (stop_bot_frame m) as (_ & _ & H1 & H2).
    rewrite H1, H2, app_nil_r. auto.
Qed.

Lemma session_requests calls : forall m,
  payhip_key (session calls m) = payhip_key m
  /\ http_calls (session calls m)
     = http_calls m ++ replicate (cycles calls) (orders_request (payhip_key m)).
Proof.
  induction calls as [|c calls IH]; intros m.
  - simpl. rewrite app_nil_r. auto.
  - destruct (perform_requests c m) as [Hkey Hhttp].
    destruct (IH (perform c m)) as [IHkey IHhttp].
    change (session (c :: calls) m) with (session calls (perform c m)).
    rewrite IHkey, IHhttp, Hkey, Hhttp. split; [reflexivity|].
    rewrite <- (assoc_L (++)), <- replicate_add. f_equal.
    destruct c; reflexivity.
Qed.

(** X16. One request per cycle, always the same one: after any sequence of
    steps on a fresh monitor the requests made are as many as the fetch
    cycles that ran, successful or not, with or without a channel, and each
    is the GET of the orders endpoint with the configured key as bearer
    token, [limit=5] and a timeout of 10 seconds. *)
Theorem one_request_per_cycle (calls : list Call) (key token : string)
    (channel interval : Z) :
  http_calls (session calls (init key token channel interval))
  = replicate (cycles calls) (orders_request key).
Proof.
  destruct (session_requests calls (init key token channel interval)) as [_ H].
  exact H.
Qed.

(** ** Starting and stopping *)

Lemma run_bot_halves bot_error m :
  run_bot bot_error m = run_bot_leave bot_error (run_bot_enter m).
Proof. reflexivity. Qed.

(** X17. Once [bot.run] has raised, the bot counts as stopped whatever
    happened while it ran: the newest line of the log is [Bot error: e],
    the flag [bot_running] is off, and a press on the stop button changes
    nothing (it logs nothing and requests no second shutdown). *)
Theorem stop_after_bot_error (e : string) (m : PayhipMonitor) :
  let m1 := run_bot_leave (Some e) m in
  last (gui_log m1) = Some ("Bot error: " +:+ e)
  /\ bot_running m1 = false
  /\ stop_bot m1 = m1.
Proof.
  cbn zeta. split; [apply last_deque_append|]. split; reflexivity.
Qed.

(** X18. A stop request on a running bot, whatever the monitor holds:
    the flag goes off, the loop is told to stop, the shutdown thread is
    started unless the connection is already closed, the log receives
    [Stopping bot...] and then [Bot stopped successfully] as its newest
    line, and neither the registry of seen orders nor the record of
    notifications changes, so that a restart does not notify seen orders
    again. *)
Theorem stop_bot_effect (m : PayhipMonitor) :
  bot_running m = true ->
  bot_running (stop_bot m) = false
  /\ loop_stopped (stop_bot m) = true
  /\ close_threads (stop_bot m)
     = (if bot_closed m then close_threads m else S (close_threads m))
  /\ gui_log (stop_bot m)
     = gui_log (log_all ["Stopping bot..."; "Bot stopped successfully"] m)
  /\ last (gui_log (stop_bot m)) = Some "Bot stopped successfully"
  /\ processed_orders (stop_bot m) = processed_orders m
  /\ notify_calls (stop_bot m) = notify_calls m
  /\ forall order, is_new order (run_bot_enter (stop_bot m)) = is_new order m.
Proof.
  intros Hrun. unfold stop_bot. rewrite Hrun. simpl.
  destruct (bot_closed m); simpl;
    repeat split; try reflexivity; apply last_deque_append.
Qed.

Lemma stop_bot_effect_witness :
  let m := run_bot_enter monitor0 in
  bot_running (stop_bot m) = false
  /\ loop_stopped (stop_bot m) = true
  /\ close_threads (stop_bot m)
     = (if bot_closed m then close_threads m else S (close_threads m))
  /\ gui_log (stop_bot m)
     = gui_log (log_all ["Stopping bot..."; "Bot stopped successfully"] m)
  /\ last (gui_log (stop_bot m)) = Some "Bot stopped successfully"
  /\ processed_orders (stop_bot m) = processed_orders m
  /\ notify_calls (stop_bot m) = notify_calls m
  /\ forall order, is_new order (run_bot_enter (stop_bot m)) = is_new order m.
Proof. apply (stop_bot_effect (run_bot_enter monitor0)). reflexivity. Defined.

(** ** What the whole loop promises *)

Lemma session_snoc calls c m :
  session (calls ++ [c]) m = perform c (session calls m).
Proof. unfold session. rewrite foldl_snoc. reflexivity. Qed.

Lemma one_with_key {A B} `{EqDecision B} (f : A -> B) (l : list A) (x : A) :
  NoDup (f <$> l) -> x ∈ l ->
  length (filter (fun y => f y = f x) l) = 1.
Proof.
  induction l as [|y l IH]; intros Hnodup Hx; [inversion Hx|].
  rewrite fmap_cons in Hnodup. apply NoDup_cons in Hnodup as [Hy Hnodup].
  apply elem_of_cons in Hx as [->|Hx].
  - rewrite filter_cons_True by reflexivity. simpl. f_equal.
    rewrite filter_none; [reflexivity|].
    apply Forall_forall. intros z Hz Heq. apply Hy.
    rewrite <- Heq. apply list_elem_of_fmap. eauto.
  - rewrite filter_cons_False; [auto|].
    intros Heq. apply Hy. rewrite Heq. apply list_elem_of_fmap. eauto.
Qed.

(** X20. Exactly one delivered notification per completed order: when, at
    any point of the life of a monitor, a cycle finds the channel and its
    messages are all accepted, then every completed order of its page has,
    in the whole history of the monitor, exactly one delivered notification
    for its id: this one, or the one of an earlier cycle. *)
Theorem exactly_one_delivery (calls : list Call) (w : Tick)
    (key token : string) (channel interval : Z) (ch : Channel) :
  let m := session calls (init key token channel interval) in
  get_channel w (channel_id m) = Some ch ->
  (forall n order, order ∈ fst (fetch_orders w m) ->
     channel_send w ch n (make_embed order) = Returns tt) ->
  forall order, order ∈ fst (fetch_orders w m) ->
    status order = "completed" ->
    length (filter (fun c => id (call_order c) = id order)
              (delivered (monitor_of (check_orders w m)))) = 1.
Proof.
  intros m Hchannel Hsend order Hin Hstatus.
  destruct (check_orders_all_delivered w m ch Hchannel Hsend) as (m1 & Hm1 & Hall).
  rewrite Hm1. simpl.
  assert (Hsession : m1 = session (calls ++ [CheckOrders w])
                            (init key token channel interval)).
  { rewrite session_snoc. simpl. fold m. rewrite Hm1. reflexivity. }
  pose proof (delivered_ids_NoDup (calls ++ [CheckOrders w])
                key token channel interval) as Hnodup.
  pose proof (registry_delivered_ids (calls ++ [CheckOrders w])
                key token channel interval) as Hreg.
  cbn zeta in Hreg. rewrite <- Hsession in Hnodup, Hreg.
  specialize (Hall order Hin Hstatus).
  rewrite Hreg, elem_of_list_to_set in Hall.
  apply list_elem_of_fmap in Hall as (c & Hid & Hc).
  rewrite Hid. apply (one_with_key (fun c => id (call_order c))); assumption.
Qed.

Lemma exactly_one_delivery_witness :
  let m := session [CheckOrders tick_A_fails; CheckOrders tick_A]
             (init "key" "token" 42 60) in
  length (filter (fun c => id (call_order c) = id order_A)
            (delivered (monitor_of (check_orders tick_AB m)))) = 1.
Proof.
  apply (exactly_one_delivery [CheckOrders tick_A_fails; CheckOrders tick_A]
           tick_AB "key" "token" 42 60 (TextChannel 42));
    try reflexivity.
  vm_compute. apply list_elem_of_here.
Defined.

(** X21. An order the feed no longer returns is never notified: in a
    stretch of the life of a monitor in which no fetched page holds an order
    with a given id, no call of [send_notification] is made for that id. In
    particular a notification that failed is lost for good once its order
    has left the page of the five most recent orders. *)
Theorem unreturned_order_never_notified (calls : list Call)
    (m : PayhipMonitor) (i : string) :
  (forall w m' order,
     CheckOrders w ∈ calls -> order ∈ fst (fetch_orders w m') ->
     id order <> i) ->
  calls_for i (session calls m) = calls_for i m.
Proof.
  revert m. induction calls as [|c calls IH]; intros m Habsent; [reflexivity|].
  change (session (c :: calls) m) with (session calls (perform c m)).
  rewrite IH
    by (intros w m' order Hw; apply Habsent, list_elem_of_further, Hw).
  destruct c as [w| |bot_error|]; unfold perform, calls_for.
  - destruct (check_orders_extends w m) as (new & (Hcalls & _) & Hin).
    rewrite Hcalls, filter_app, (filter_none _ new), app_nil_r; [reflexivity|].
    eapply Forall_impl; [exact Hin|]. intros c Hc.
    apply (Habsent w m (call_order c)); [apply list_elem_of_here|exact Hc].
  - destruct (run_bot_enter_frame m) as (_ & -> & _). reflexivity.
  - destruct (run_bot_leave_frame bot_error m) as (_ & -> & _). reflexivity.
  - destruct (stop_bot_frame m) as (_ & -> & _). reflexivity.
Qed.

Lemma unreturned_order_never_notified_witness :
  let m := monitor_of (check_orders tick_A_fails monitor0) in
  calls_for "A" (session [CheckOrders tick_B; StopBot; CheckOrders tick_B] m)
  = calls_for "A" m.
Proof.
  apply (unreturned_order_never_notified
           [CheckOrders tick_B; StopBot; CheckOrders tick_B]
           (monitor_of (check_orders tick_A_fails monitor0)) "A").
  intros w m' order Hw Hin.
  assert (Hw' : w = tick_B).
  { repeat (apply elem_of_cons in Hw as [Hw|Hw]; [congruence|]). inversion Hw. }
  subst w. vm_compute in Hin.
  apply list_elem_of_singleton in Hin. subst order. discriminate.
Defined.
